(** * polliard/gitignore: the section editor, the repository-URL parser and
      the source resolver, embedded from the Go sources.

    Go strings are byte sequences: they are modelled as [list ascii], one
    [ascii] per byte.  The functions of the Go standard library that the
    program calls ([strings], [bufio], [fmt.Sprintf] with two [%s]) are
    modelled in [GoStrings] and [Bufio]; the program itself is embedded in
    [Manager] (src/pkg/gitignore/manager.go), [Github]
    (src/pkg/github/client.go) and [TemplateFile], [Source],
    [SourceManager] (src/pkg/source). *)

From Stdlib Require Import Ascii String List NArith Bool Lia.
From stdpp Require Import gmap strings list.
Import ListNotations.

Abbreviation str := (list ascii).

(** String literals of the Go source are written as Rocq string literals. *)
Definition lit (s : string) : str := list_ascii_of_string s.
Coercion lit : string >-> list.
Arguments lit : simpl never.

(** Go's [(T, error)] results. *)
Inductive result (E A : Type) : Type :=
| Ok (a : A)
| Err (e : E).
Arguments Ok {E A} a.
Arguments Err {E A} e.

(* ================================================================== *)
(** ** Package [strings] of the Go standard library *)

Module GoStrings.

Definition LF : ascii := "010"%char.
Definition CR : ascii := "013"%char.
Definition TAB : ascii := "009"%char.
Definition SP : ascii := " "%char.

(** [strings.HasPrefix]: [len(s) >= len(prefix) && s[:len(prefix)] == prefix]. *)
Fixpoint HasPrefix (s prefix : str) {struct prefix} : bool :=
  match prefix with
  | [] => true
  | p :: prefix' =>
      match s with
      | [] => false
      | c :: s' => Ascii.eqb c p && HasPrefix s' prefix'
      end
  end.

(** [strings.HasSuffix]:
    [len(s) >= len(suffix) && s[len(s)-len(suffix):] == suffix]. *)
Definition HasSuffix (s suffix : str) : bool :=
  (length suffix <=? length s)
  && bool_decide (drop (length s - length suffix) s = suffix).

(** [strings.Index]: the byte offset of the first occurrence of [substr]
    in [s]; [None] stands for Go's [-1]. *)
Fixpoint Index (s substr : str) : option nat :=
  if HasPrefix s substr then Some 0
  else match s with
       | [] => None
       | _ :: s' => S <$> Index s' substr
       end.

(** [strings.Contains]: [Index(s, substr) >= 0]. *)
Definition Contains (s substr : str) : bool :=
  match Index s substr with Some _ => true | None => false end.

(** [strings.TrimPrefix] and [strings.TrimSuffix]. *)
Definition TrimPrefix (s prefix : str) : str :=
  if HasPrefix s prefix then drop (length prefix) s else s.

Definition TrimSuffix (s suffix : str) : str :=
  if HasSuffix s suffix then take (length s - length suffix) s else s.

(** [strings.TrimLeft], [strings.TrimRight] and [strings.Trim] for a cutset
    of ASCII bytes (the program's cutsets are ["\n\t "] and ["/"]): bytes of
    the cutset are removed one by one. *)
Definition inCutset (cutset : str) (c : ascii) : bool :=
  existsb (Ascii.eqb c) cutset.

Fixpoint TrimLeft (s cutset : str) : str :=
  match s with
  | [] => []
  | c :: s' => if inCutset cutset c then TrimLeft s' cutset else s
  end.

Definition TrimRight (s cutset : str) : str :=
  rev (TrimLeft (rev s) cutset).

Definition Trim (s cutset : str) : str :=
  TrimLeft (TrimRight s cutset) cutset.

(** [strings.Split] for a non-empty separator (the program's separators are
    ["github.com/"] and ["/"]).  Go's [genSplit] cuts at the first
    occurrence of [sep] at most [Count(s, sep)] times; [length s] bounds
    that count. *)
Fixpoint genSplit (n : nat) (s sep : str) : list str :=
  match n with
  | 0 => [s]
  | S n' =>
      match Index s sep with
      | None => [s]
      | Some m => take m s :: genSplit n' (drop (m + length sep) s) sep
      end
  end.

Definition Split (s sep : str) : list str := genSplit (length s) s sep.

(** [fmt.Sprintf("%s %s", a, b)]. *)
Definition Sprintf_s_s (a b : str) : str := a ++ [SP] ++ b.
Arguments Sprintf_s_s : simpl never.

(** *** [strings.TrimSpace]

    Go removes leading and trailing white space as [unicode.IsSpace]
    defines it, decoding the string as UTF-8.  The white-space code points
    are the six ASCII ones, U+0085, U+00A0, U+1680, U+2000..U+200A, U+2028,
    U+2029, U+202F, U+205F and U+3000; each has exactly one valid encoding,
    and a byte sequence that is not one of those encodings decodes to
    another rune (or to [RuneError] of width 1), which is not white space.
    So a string starts (ends) with a white-space rune exactly when it starts
    (ends) with one of the encodings below. *)
Definition asciiSpace (c : ascii) : bool :=
  inCutset [TAB; LF; "011"%char; "012"%char; CR; SP] c.

(** U+0085 = C2 85, U+00A0 = C2 A0. *)
Definition space2 (b0 b1 : ascii) : bool :=
  Ascii.eqb b0 "194" && (Ascii.eqb b1 "133" || Ascii.eqb b1 "160").

(** U+1680 = E1 9A 80; U+2000..U+200A = E2 80 80..8A; U+2028, U+2029,
    U+202F = E2 80 A8, A9, AF; U+205F = E2 81 9F; U+3000 = E3 80 80. *)
Definition space3 (b0 b1 b2 : ascii) : bool :=
  (Ascii.eqb b0 "225" && Ascii.eqb b1 "154" && Ascii.eqb b2 "128")
  || (Ascii.eqb b0 "226" && Ascii.eqb b1 "128"
      && ((128 <=? N_of_ascii b2)%N && (N_of_ascii b2 <=? 138)%N
          || inCutset ["168"%char; "169"%char; "175"%char] b2))
  || (Ascii.eqb b0 "226" && Ascii.eqb b1 "129" && Ascii.eqb b2 "159")
  || (Ascii.eqb b0 "227" && Ascii.eqb b1 "128" && Ascii.eqb b2 "128").

(** Leading white-space runes removed ([strings.TrimLeftFunc] with
    [unicode.IsSpace]). *)
Fixpoint trimLeftSpace (s : str) : str :=
  match s with
  | [] => []
  | b0 :: s1 =>
      if asciiSpace b0 then trimLeftSpace s1
      else match s1 with
           | [] => s
           | b1 :: s2 =>
               if space2 b0 b1 then trimLeftSpace s2
               else match s2 with
                    | [] => s
                    | b2 :: s3 =>
                        if space3 b0 b1 b2 then trimLeftSpace s3 else s
                    end
           end
  end.

(** Trailing white-space runes removed, on the reversed string: the last
    byte comes first. *)
Fixpoint trimLeftSpaceRev (r : str) : str :=
  match r with
  | [] => []
  | b0 :: r1 =>
      if asciiSpace b0 then trimLeftSpaceRev r1
      else match r1 with
           | [] => r
           | b1 :: r2 =>
               if space2 b1 b0 then trimLeftSpaceRev r2
               else match r2 with
                    | [] => r
                    | b2 :: r3 =>
                        if space3 b2 b1 b0 then trimLeftSpaceRev r3 else r
                    end
           end
  end.

Definition trimRightSpace (s : str) : str := rev (trimLeftSpaceRev (rev s)).

Definition TrimSpace (s : str) : str := trimRightSpace (trimLeftSpace s).

(** [strings.Join]. *)
Fixpoint Join (elems : list str) (sep : str) : str :=
  match elems with
  | [] => []
  | [a] => a
  | a :: rest => a ++ sep ++ Join rest sep
  end.

(** [strings.ReplaceAll] for a non-empty [old]: the pieces between the
    occurrences of [old], in order, with [new] between them. *)
Definition ReplaceAll (s old new : str) : str := Join (Split s old) new.

End GoStrings.

(* ================================================================== *)
(** ** [bufio.Scanner] with the default split function [bufio.ScanLines] *)

Module Bufio.
Import GoStrings.

(** [bufio.MaxScanTokenSize]: a scanner that was given no buffer of its
    own stops with [ErrTooLong] when a line does not fit in [64 * 1024]
    bytes. *)
Definition MaxScanTokenSize : N := 65536.

(** The input cut after every ['\n']; a last line without ['\n'] is a line
    when it is not empty. *)
Fixpoint rawLines (s : str) : list str :=
  match s with
  | [] => []
  | c :: s' =>
      if Ascii.eqb c LF then [] :: rawLines s'
      else match rawLines s' with
           | [] => [[c]]
           | l :: ls => (c :: l) :: ls
           end
  end.

(** [dropCR]: one trailing ['\r'] is removed from a line. *)
Definition dropCR (data : str) : str :=
  match rev data with
  | c :: r => if Ascii.eqb c CR then rev r else data
  | [] => data
  end.

(** The tokens [Scan] delivers, and whether [Err()] is non-nil afterwards:
    scanning stops at the first line of [MaxScanTokenSize] bytes or more. *)
Fixpoint scanTokens (ls : list str) : list str * bool :=
  match ls with
  | [] => ([], false)
  | l :: ls' =>
      if (MaxScanTokenSize <=? N.of_nat (length l))%N then ([], true)
      else let (ts, e) := scanTokens ls' in (dropCR l :: ts, e)
  end.

Definition Scan (s : str) : list str * bool := scanTokens (rawLines s).

End Bufio.

(* ================================================================== *)
(** ** Package [gitignore]: the section editor (manager.go) *)

Module Manager.
Import GoStrings Bufio.

Definition SectionStartPrefix : str := "### START:".
Definition SectionEndPrefix : str := "### END:".
Definition IgnoredSectionPrefix : str := "ignored/".

(** The errors the editor makes with [fmt.Errorf]. *)
Inductive error : Type :=
| ErrSectionExists (sectionName : str)   (* section '%s' already exists in .gitignore *)
| ErrSectionNotFound (sectionName : str) (* section '%s' not found in .gitignore *)
| ErrReading                             (* error reading .gitignore: %w *)
| ErrEmptyPattern.                       (* pattern cannot be empty *)

(** The file at [m.filepath]: absent or present with its bytes, and the
    contents handed to [os.WriteFile] so far, oldest first.  The operating
    system is taken to serve every read of an existing file and every
    write. *)
Record store : Type := mkStore {
  file : option str;
  written : list str
}.

(** The editor's methods read and write the file and may return an error. *)
Definition M (A : Type) : Type := store -> result error A * store.

Definition ret {A : Type} (a : A) : M A := fun st => (Ok a, st).

Definition fail {A : Type} (e : error) : M A := fun st => (Err e, st).

Definition bind {A B : Type} (m : M A) (k : A -> M B) : M B :=
  fun st =>
    match m st with
    | (Ok a, st') => k a st'
    | (Err e, st') => (Err e, st')
    end.

Declare Scope go_scope.
Delimit Scope go_scope with go.
Notation "'let*' x ':=' m 'in' k" := (bind m (fun x => k))
  (at level 10, x name, m at level 100, k at level 200) : go_scope.
Local Open Scope go_scope.

(** [Exists]: [os.Stat] succeeds. *)
Definition Exists : M bool :=
  fun st => (Ok (bool_decide (is_Some (file st))), st).

(** [Read]: the content of the file, the empty string when it is absent. *)
Definition Read : M str :=
  fun st => (Ok (default [] (file st)), st).

(** [write]: [os.MkdirAll] of the directory, then [os.WriteFile]. *)
Definition write (content : str) : M unit :=
  fun st => (Ok tt, {| file := Some content; written := written st ++ [content] |}).

Definition HasSection (sectionName : str) : M bool :=
  let* content := Read in
  let startMarker := Sprintf_s_s SectionStartPrefix sectionName in
  ret (Contains content startMarker).

(** What [Add] builds in its [strings.Builder]. *)
Definition addBuild (currentContent sectionName content : str) : str :=
  let builder : str := [] in
  let builder :=
    if decide (currentContent <> [])
    then
      let builder := builder ++ currentContent in
      let builder :=
        if negb (HasSuffix currentContent [LF]) then builder ++ [LF] else builder in
      builder ++ [LF]
    else builder in
  let builder := builder ++ (Sprintf_s_s SectionStartPrefix sectionName ++ [LF]) in
  let content := TrimSpace content in
  let builder := builder ++ content in
  let builder :=
    if negb (HasSuffix content [LF]) then builder ++ [LF] else builder in
  builder ++ (Sprintf_s_s SectionEndPrefix sectionName ++ [LF]).

Definition Add (sectionName content : str) : M unit :=
  let* exists_ := HasSection sectionName in
  if exists_ : bool then fail (ErrSectionExists sectionName)
  else
    let* currentContent := Read in
    write (addBuild currentContent sectionName content).

(** The variables of [Delete]'s scanning loop. *)
Record delState : Type := mkDel {
  result_ : str;
  inSection : bool;
  foundSection : bool;
  prevLineEmpty : bool
}.

(** One iteration of [for scanner.Scan()] in [Delete]. *)
Definition deleteStep (startMarker endMarker : str) (st : delState) (line : str)
  : delState :=
  if decide (TrimSpace line = startMarker) then
    {| result_ := result_ st; inSection := true; foundSection := true;
       prevLineEmpty := prevLineEmpty st |}
  else if decide (TrimSpace line = endMarker) then
    {| result_ := result_ st; inSection := false; foundSection := foundSection st;
       prevLineEmpty := prevLineEmpty st |}
  else if negb (inSection st) then
    if decide (TrimSpace line = []) then
      if prevLineEmpty st then st
      else
        {| result_ := result_ st ++ line ++ [LF]; inSection := inSection st;
           foundSection := foundSection st; prevLineEmpty := true |}
    else
      {| result_ := result_ st ++ line ++ [LF]; inSection := inSection st;
         foundSection := foundSection st; prevLineEmpty := false |}
  else st.

Definition deleteInit : delState :=
  {| result_ := []; inSection := false; foundSection := false;
     prevLineEmpty := false |}.

(** [strings.TrimRight(result.String(), "\n\t ")], then one ['\n'] unless
    nothing is left. *)
Definition finalContent (result : str) : str :=
  let final := TrimRight result [LF; TAB; SP] in
  if decide (final <> []) then final ++ [LF] else final.

Definition Delete (sectionName : str) : M unit :=
  let* content := Read in
  if decide (content = []) then fail (ErrSectionNotFound sectionName)
  else
    let startMarker := Sprintf_s_s SectionStartPrefix sectionName in
    let endMarker := Sprintf_s_s SectionEndPrefix sectionName in
    let (lines, scanErr) := Scan content in
    let st := fold_left (deleteStep startMarker endMarker) lines deleteInit in
    if scanErr : bool then fail ErrReading
    else if negb (foundSection st) then fail (ErrSectionNotFound sectionName)
    else write (finalContent (result_ st)).

(** [ListSections]: the names after the start prefix, in file order.  The
    second component tells whether [scanner.Err()] is non-nil. *)
Definition listStep (sections : list str) (text : str) : list str :=
  let line := TrimSpace text in
  if HasPrefix line SectionStartPrefix
  then sections ++ [TrimSpace (TrimPrefix line SectionStartPrefix)]
  else sections.

Definition ListSections : M (list str * bool) :=
  let* content := Read in
  let (lines, scanErr) := Scan content in
  ret (fold_left listStep lines [], scanErr).

(** [AddPatterns] returns [added], [skipped] and [err] together: the lists
    gathered so far come back with an error too. *)
Fixpoint addPatternsLoop (patterns added skipped : list str) (st : store)
  : (list str * list str * option error) * store :=
  match patterns with
  | [] => ((added, skipped, None), st)
  | pattern :: rest =>
      let pattern := TrimSpace pattern in
      if decide (pattern = []) then addPatternsLoop rest added skipped st
      else
        let sectionName := IgnoredSectionPrefix ++ pattern in
        match HasSection sectionName st with
        | (Err err, st1) => ((added, skipped, Some err), st1)
        | (Ok true, st1) => addPatternsLoop rest added (skipped ++ [pattern]) st1
        | (Ok false, st1) =>
            match Add sectionName pattern st1 with
            | (Err err, st2) => ((added, skipped, Some err), st2)
            | (Ok _, st2) => addPatternsLoop rest (added ++ [pattern]) skipped st2
            end
        end
  end.

Definition AddPatterns (patterns : list str) (st : store)
  : (list str * list str * option error) * store :=
  addPatternsLoop patterns [] [] st.


End Manager.

(* ================================================================== *)
(** ** Package [github]: the repository URL (client.go) *)

Module Github.
Import GoStrings.

Inductive error : Type :=
| ErrInvalidGitHubURL (repoURL : str)     (* invalid GitHub URL: %s *)
| ErrInvalidGitHubSSHURL (repoURL : str)  (* invalid GitHub SSH URL: %s *)
| ErrUnsupportedURLFormat (repoURL : str). (* unsupported URL format: %s *)

Definition parseRepoURL (repoURL : str) : result error (str * str) :=
  let repoURL := TrimSuffix repoURL ".git" in
  if Contains repoURL "github.com/" then
    let parts := Split repoURL "github.com/" in
    match parts with
    | _ :: parts1 :: _ =>
        let pathParts := Split (Trim parts1 "/") "/" in
        match pathParts with
        | pathParts0 :: pathParts1 :: _ => Ok (pathParts0, pathParts1)
        | _ => Err (ErrInvalidGitHubURL repoURL)
        end
    | _ => Err (ErrInvalidGitHubURL repoURL)
    end
  else if HasPrefix repoURL "git@github.com:" then
    let path := TrimPrefix repoURL "git@github.com:" in
    let pathParts := Split path "/" in
    match pathParts with
    | pathParts0 :: pathParts1 :: _ => Ok (pathParts0, pathParts1)
    | _ => Err (ErrInvalidGitHubSSHURL repoURL)
    end
  else Err (ErrUnsupportedURLFormat repoURL).

(** [GitignoreFile]: a template of the repository. *)
Record GitignoreFile : Type := mkFile {
  Name : str;
  Path : str;
  Category : str
}.

(** [parseGitignorePath]: the file name is the last segment of the path,
    the category the segments before it. *)
Definition parseGitignorePath (path : str) : GitignoreFile :=
  let parts := Split path "/" in
  let filename := List.last parts [] in
  let name := TrimSuffix filename ".gitignore" in
  let category :=
    if 1 <? length parts then Join (removelast parts) "/" else [] in
  {| Name := name; Path := path; Category := category |}.

Section WithToLower.

(** [strings.ToLower] is left open, as in [SourceManager]. *)
Variable ToLower : str -> str.

(** The name [FindGitignoreFile] compares in its second pass. *)
Definition fullName (file : GitignoreFile) : str :=
  if decide (Category file <> []) then Category file ++ "/" ++ Name file
  else Name file.

(** [FindGitignoreFile]: [listing] is what [ListGitignoreFiles] returned,
    files or an error (a message).  The first pass looks for the bare name,
    the second for [category/name]. *)
Definition FindGitignoreFile (listing : result str (list GitignoreFile)) (name : str)
  : result str GitignoreFile :=
  match listing with
  | Err err => Err err
  | Ok files =>
      let nameLower := ToLower name in
      match List.find (fun file => bool_decide (ToLower (Name file) = nameLower)) files with
      | Some file => Ok file
      | None =>
          match List.find (fun file => bool_decide (ToLower (fullName file) = nameLower))
                  files with
          | Some file => Ok file
          | None => Err (lit "gitignore template '" ++ name ++ lit "' not found")
          end
      end
  end.

End WithToLower.

End Github.

(* ================================================================== *)
(** ** Package [source]: templates, sources and the source manager *)

Module TemplateFile.

Record t : Type := mk {
  Name : str;
  Path : str;
  Category : str;
  Source : str
}.

End TemplateFile.

(** The [Source] interface, as far as listing goes: a source has a name,
    and a call of its [List] method returns files or an error (a message).
    What a call returns is decided by the directory or the remote service
    behind the source. *)
Module Source.

Record t : Type := mk {
  Name : str;
  List : result str (list TemplateFile.t)
}.

End Source.

Module SourceManager.

Record t : Type := mk {
  local : Source.t;
  remote : list Source.t;
  sources : list Source.t
}.

(** [SourceResult]: [Error] is [None] for Go's [nil]. *)
Record SourceResult : Type := mkResult {
  Files : list TemplateFile.t;
  Error : option str
}.

(** [NewSourceManager]: the local source first, then GitHub, then Toptal
    when it is enabled.  [NewGitHubSource] fails when the template URL does
    not parse.  The three listings stand for what the directory and the two
    services answer. *)
Definition NewSourceManager
  (localList githubList toptalList : result str (list TemplateFile.t))
  (templateURL : str) (enableToptal : bool) : result Github.error t :=
  let local := Source.mk "local" localList in
  match Github.parseRepoURL templateURL with
  | Err err => Err err
  | Ok _ =>
      let githubSource := Source.mk "github" githubList in
      let toptalSource := Source.mk "toptal" toptalList in
      Ok {| local := local;
            remote := [githubSource] ++ (if enableToptal then [toptalSource] else []);
            sources := [local] ++ [githubSource]
                       ++ (if enableToptal then [toptalSource] else []) |}
  end.

Section WithToLower.

(** [strings.ToLower], Unicode's case mapping, is left open: the results
    below hold for every function in its place. *)
Variable ToLower : str -> str.

(** [localNames[k]] of a [map[string]bool]: a missing key reads [false]. *)
Definition readName (localNames : gmap str bool) (k : str) : bool :=
  default false (localNames !! k).

(** The loop of [List] over the local files. *)
Definition listLocalStep (acc : list TemplateFile.t * gmap str bool)
  (f : TemplateFile.t) : list TemplateFile.t * gmap str bool :=
  (acc.1 ++ [f], <[ToLower (TemplateFile.Name f) := true]> acc.2).

(** The inner loop of [List] over the files of one remote source. *)
Definition listRemoteFileStep (localNames : gmap str bool)
  (allFiles : list TemplateFile.t) (f : TemplateFile.t) : list TemplateFile.t :=
  if negb (readName localNames (ToLower (TemplateFile.Name f)))
  then allFiles ++ [f] else allFiles.

(** The outer loop of [List] over the remote sources. *)
Definition listRemoteStep (localNames : gmap str bool)
  (allFiles : list TemplateFile.t) (source : Source.t) : list TemplateFile.t :=
  match Source.List source with
  | Err _ => allFiles
  | Ok files => fold_left (listRemoteFileStep localNames) files allFiles
  end.

Definition List (sm : t) : result str (list TemplateFile.t) :=
  match Source.List (local sm) with
  | Err err => Err (lit "failed to list local templates: " ++ err)
  | Ok localFiles =>
      let '(allFiles, localNames) := fold_left listLocalStep localFiles ([], ∅) in
      Ok (fold_left (listRemoteStep localNames) (remote sm) allFiles)
  end.

End WithToLower.

(** One iteration of [ListBySource]. *)
Definition listBySourceStep (result : gmap str SourceResult) (source : Source.t)
  : gmap str SourceResult :=
  match Source.List source with
  | Err err => <[Source.Name source := {| Files := []; Error := Some err |}]> result
  | Ok files => <[Source.Name source := {| Files := files; Error := None |}]> result
  end.

(** [ListBySource] returns the map and an error that is always [nil]. *)
Definition ListBySource (sm : t) : gmap str SourceResult * option str :=
  (fold_left listBySourceStep (sources sm) ∅, None).

Section WithMethods.

(** What the [Get] and the [Find] method of a source answer for a name:
    like the listings, decided by the directory or service behind the
    source. *)
Variable sourceGet : Source.t -> str -> result str (TemplateFile.t * str).
Variable sourceFind : Source.t -> str -> result str TemplateFile.t.

(** The loop of [Get] over the remote sources, with its [lastErr]. *)
Fixpoint getRemote (remote : list Source.t) (name : str) (lastErr : option str)
  : result str (TemplateFile.t * str) :=
  match remote with
  | [] =>
      match lastErr with
      | Some _ => Err (lit "template '" ++ name ++ lit "' not found in any source")
      | None => Err (lit "template '" ++ name ++ lit "' not found")
      end
  | source :: rest =>
      match sourceGet source name with
      | Ok found => Ok found
      | Err err => getRemote rest name (Some err)
      end
  end.

Definition Get (sm : t) (name : str) : result str (TemplateFile.t * str) :=
  match sourceGet (local sm) name with
  | Ok found => Ok found
  | Err _ => getRemote (remote sm) name None
  end.

(** The loop of [GetFromSource] over all sources. *)
Fixpoint getFromSourceLoop (srcs : list Source.t) (sourceName templateName : str)
  : result str (TemplateFile.t * str) :=
  match srcs with
  | [] => Err (lit "unknown source: " ++ sourceName)
  | source :: rest =>
      if decide (Source.Name source = sourceName) then sourceGet source templateName
      else getFromSourceLoop rest sourceName templateName
  end.

Definition GetFromSource (sm : t) (sourceName templateName : str)
  : result str (TemplateFile.t * str) :=
  getFromSourceLoop (sources sm) sourceName templateName.

(** The loop of [Find] over the remote sources. *)
Fixpoint findRemote (remote : list Source.t) (name : str) : result str TemplateFile.t :=
  match remote with
  | [] => Err (lit "template '" ++ name ++ lit "' not found in any source")
  | source :: rest =>
      match sourceFind source name with
      | Ok file => Ok file
      | Err _ => findRemote rest name
      end
  end.

Definition Find (sm : t) (name : str) : result str TemplateFile.t :=
  match sourceFind (local sm) name with
  | Ok file => Ok file
  | Err _ => findRemote (remote sm) name
  end.

End WithMethods.

End SourceManager.

(* ================================================================== *)
(** ** [ToptalSource]: the list of template names (toptal.go) *)

Module Toptal.
Import GoStrings.

(** The loop of [List] over the pieces of the answer. *)
Definition listStep (files : list TemplateFile.t) (name : str) : list TemplateFile.t :=
  let name := TrimSpace name in
  if decide (name = []) then files
  else files ++ [{| TemplateFile.Name := name; TemplateFile.Path := name;
                    TemplateFile.Category := []; TemplateFile.Source := "toptal" |}].

(** What [List] makes of the body of a successful answer: newlines become
    commas, carriage returns go, the pieces between commas are the names. *)
Definition parseList (body : str) : list TemplateFile.t :=
  let content := body in
  let content := ReplaceAll content [LF] "," in
  let content := ReplaceAll content [CR] [] in
  fold_left listStep (Split content ",") [].

End Toptal.

(* ================================================================== *)
(** ** Vocabulary of the specification *)

Module Spec.
Import GoStrings Bufio Manager.

(** The content of the ignore file: what [Read] returns. *)
Definition content (st : store) : str := default [] (file st).

Definition startMarker (sectionName : str) : str :=
  Sprintf_s_s SectionStartPrefix sectionName.

Definition endMarker (sectionName : str) : str :=
  Sprintf_s_s SectionEndPrefix sectionName.

Arguments startMarker : simpl never.
Arguments endMarker : simpl never.

(** The lines of a text: cut at ['\n'], one trailing ['\r'] dropped. *)
Definition lines (text : str) : list str := map dropCR (rawLines text).

(** Some line of the text is, once trimmed, exactly [marker]. *)
Definition hasLine (marker text : str) : bool :=
  existsb (fun line => bool_decide (TrimSpace line = marker)) (lines text).

(** No line of [ls] is, once trimmed, exactly [marker]. *)
Definition noLine (marker : str) (ls : list str) : bool :=
  forallb (fun line => negb (bool_decide (TrimSpace line = marker))) ls.

(** Every line of the text fits the scanner's buffer. *)
Definition shortLines (text : str) : bool :=
  forallb (fun l => (N.of_nat (length l) <? MaxScanTokenSize)%N) (rawLines text).

(** Lines written back, each followed by ['\n']. *)
Definition unlines (ls : list str) : str := concat (map (fun l => l ++ [LF]) ls).

(** Runs of blank (white-space only) lines reduced to their first line;
    [prevBlank] tells whether a blank line comes just before. *)
Fixpoint collapse (prevBlank : bool) (ls : list str) : list str :=
  match ls with
  | [] => []
  | l :: ls' =>
      if decide (TrimSpace l = []) then
        if prevBlank then collapse true ls' else l :: collapse true ls'
      else l :: collapse false ls'
  end.

(** Whether the last line of [ls] is blank; [prevBlank] when [ls] is
    empty. *)
Definition blankAfter (prevBlank : bool) (ls : list str) : bool :=
  fold_left (fun _ l => bool_decide (TrimSpace l = [])) ls prevBlank.

(** The normal form the editor's rewrite gives a text: blank-line runs
    collapsed, trailing newlines, tabs and spaces cut, one ['\n'] at the end
    unless nothing is left. *)
Definition normalize (text : str) : str :=
  finalContent (unlines (collapse false (lines text))).

(** Empty, or ending with one ['\n'] and not with two. *)
Definition wellTerminated (s : str) : bool :=
  bool_decide (s = []) || HasSuffix s [LF] && negb (HasSuffix s [LF; LF]).


(** What [Add] puts between the old content and the new section: the
    old content ends its last line, then one empty line. *)
Definition addPrefix (cur : str) : str :=
  if decide (cur <> []) then
    (if negb (HasSuffix cur [LF]) then cur ++ [LF] else cur) ++ [LF]
  else [].



(** [Delete] as the specification words it: the lines from the start marker
    through the end marker are removed; the other lines are kept as they
    are, except that a blank line after a blank line is dropped when it lies
    outside every section.  [openSection] tells whether the line lies inside
    a section other than the one removed. *)
Record specDelState : Type := mkSpecDel {
  kept : list str;
  inTarget : bool;
  openSection : bool;
  lastBlank : bool
}.

Definition specDeleteStep (sectionName : str) (st : specDelState) (line : str)
  : specDelState :=
  let t := TrimSpace line in
  if decide (t = startMarker sectionName) then
    {| kept := kept st; inTarget := true; openSection := openSection st;
       lastBlank := lastBlank st |}
  else if decide (t = endMarker sectionName) then
    {| kept := kept st; inTarget := false; openSection := openSection st;
       lastBlank := lastBlank st |}
  else if inTarget st then st
  else if HasPrefix t SectionStartPrefix then
    {| kept := kept st ++ [line]; inTarget := false; openSection := true;
       lastBlank := false |}
  else if HasPrefix t SectionEndPrefix then
    {| kept := kept st ++ [line]; inTarget := false; openSection := false;
       lastBlank := false |}
  else if openSection st then
    {| kept := kept st ++ [line]; inTarget := false; openSection := true;
       lastBlank := false |}
  else if decide (t = []) then
    if lastBlank st then st
    else {| kept := kept st ++ [line]; inTarget := false; openSection := false;
            lastBlank := true |}
  else {| kept := kept st ++ [line]; inTarget := false; openSection := false;
          lastBlank := false |}.

Definition specDelete (sectionName text : str) : str :=
  let st := fold_left (specDeleteStep sectionName) (lines text)
              {| kept := []; inTarget := false; openSection := false;
                 lastBlank := false |} in
  finalContent (unlines (kept st)).

(** ASCII letters lowered, the other bytes kept: [strings.ToLower] on
    ASCII strings. *)
Definition asciiToLower (s : str) : str :=
  map (fun c =>
         let n := N_of_ascii c in
         if (65 <=? n)%N && (n <=? 90)%N then ascii_of_N (n + 32) else c) s.

Section Resolver.
Variable ToLower : str -> str.

(** The lowered names of a listing. *)
Definition lowerNames (files : list TemplateFile.t) : list str :=
  map (fun f => ToLower (TemplateFile.Name f)) files.

(** What a remote source contributes to the aggregate listing: its files
    whose case-insensitive name does not appear in Local's listing. *)
Definition remoteEntries (localFiles : list TemplateFile.t) (source : Source.t)
  : list TemplateFile.t :=
  match Source.List source with
  | Err _ => []
  | Ok files =>
      filter (fun f => ToLower (TemplateFile.Name f) ∉ lowerNames localFiles) files
  end.

End Resolver.

(** What [ListBySource] reports for one source. *)
Definition outcome (source : Source.t) : SourceManager.SourceResult :=
  match Source.List source with
  | Err err => {| SourceManager.Files := []; SourceManager.Error := Some err |}
  | Ok files => {| SourceManager.Files := files; SourceManager.Error := None |}
  end.

(** A path segment of a repository URL: not empty, no ['/'] in it. *)
Definition segment (s : str) : bool :=
  bool_decide (s <> []) && negb (inCutset s "/"%char).

(** *** Stores and files used as examples *)

Definition emptyStore : store := {| file := None; written := [] |}.

Definition storeOf (text : str) : store := {| file := Some text; written := [] |}.

(** A file with one section, [Golang]. *)
Definition golangFile : str :=
  "### START: Golang" ++ [LF] ++ "*.exe" ++ [LF] ++ "### END: Golang" ++ [LF].

(** A file with a section [y] that holds two blank lines in a row, and a
    section [x] after it. *)
Definition twoSectionsFile : str :=
  unlines [lit "### START: y"; lit "a"; lit ""; lit ""; lit "b"; lit "### END: y";
           lit "### START: x"; lit "c"; lit "### END: x"].

(** A file with lines of its own around a section [Go]. *)
Definition mixedFile : str :=
  unlines [lit "# mine"; lit ""; lit "### START: Go"; lit "*.exe"; lit "### END: Go";
           lit ""; lit "*.tmp"].

(** A file that is one line of 65536 bytes. *)
Definition longLineFile : str := repeat "a"%char (N.to_nat 65536).

End Spec.
(* ================================================================== *)
(** * Facts about the library functions *)

Section StringFacts.
Import GoStrings.

Lemma HasPrefix_app (p r : str) : HasPrefix (p ++ r) p = true.
Proof.
  induction p as [|c p IH]; simpl; [done|].
  by rewrite Ascii.eqb_refl, IH.
Qed.

Lemma HasPrefix_true (s p : str) : HasPrefix s p = true -> s = p ++ drop (length p) s.
Proof.
  revert s; induction p as [|c p IH]; intros [|d s] H; simpl in *; try done.
  apply andb_true_iff in H as [Hc Hp].
  apply Ascii.eqb_eq in Hc as ->. f_equal. by apply IH.
Qed.

Lemma HasPrefix_nil_r (s : str) : HasPrefix s [] = true.
Proof. by destruct s. Qed.

Lemma HasPrefix_iff (s p : str) : HasPrefix s p = true <-> exists r, s = p ++ r.
Proof.
  split.
  - intros H. eexists. by apply HasPrefix_true.
  - intros [r ->]. apply HasPrefix_app.
Qed.

Lemma HasSuffix_app (p suf : str) : HasSuffix (p ++ suf) suf = true.
Proof.
  unfold HasSuffix. rewrite length_app.
  apply andb_true_iff; split.
  - apply Nat.leb_le. lia.
  - apply bool_decide_eq_true.
    replace (length p + length suf - length suf) with (length p) by lia.
    by rewrite drop_app_length.
Qed.

Lemma HasSuffix_true (s suf : str) :
  HasSuffix s suf = true -> s = take (length s - length suf) s ++ suf.
Proof.
  unfold HasSuffix. intros H.
  apply andb_true_iff in H as [_ H]. apply bool_decide_eq_true in H.
  pose proof (take_drop (length s - length suf) s) as E.
  rewrite H in E. done.
Qed.

Lemma HasSuffix_iff (s suf : str) : HasSuffix s suf = true <-> exists p, s = p ++ suf.
Proof.
  split.
  - intros H. eexists. by apply HasSuffix_true.
  - intros [p ->]. apply HasSuffix_app.
Qed.

Lemma HasSuffix_last_false (p : str) (c d : ascii) :
  c <> d -> HasSuffix (p ++ [c]) [d] = false.
Proof.
  intros Hcd. apply not_true_is_false. intros H.
  apply HasSuffix_iff in H as [q Hq].
  apply app_inj_tail in Hq as [_ ?]. done.
Qed.

Lemma HasSuffix_nil_cons (c : ascii) : HasSuffix [] [c] = false.
Proof. reflexivity. Qed.

(** [Index] finds an occurrence, and the first one. *)
Lemma Index_Some (s m : str) (i : nat) :
  Index s m = Some i -> s = take i s ++ m ++ drop (i + length m) s.
Proof.
  revert i; induction s as [|c s IH]; intros i; simpl.
  - destruct (HasPrefix [] m) eqn:Hp; [|done].
    intros [= <-]. apply HasPrefix_true in Hp. simpl. done.
  - destruct (HasPrefix (c :: s) m) eqn:Hp.
    + intros [= <-]. apply HasPrefix_true in Hp. simpl. done.
    + destruct (Index s m) as [j|] eqn:Hj; simpl; [|done].
      intros [= <-]. simpl. f_equal. by apply IH.
Qed.

Lemma Index_Some_le (s m : str) (i : nat) :
  Index s m = Some i -> i + length m <= length s.
Proof.
  revert i; induction s as [|c s IH]; intros i; simpl.
  - destruct (HasPrefix [] m) eqn:Hp; [|done].
    intros [= <-]. apply HasPrefix_true in Hp.
    apply (f_equal length) in Hp. rewrite length_app in Hp. simpl in *. lia.
  - destruct (HasPrefix (c :: s) m) eqn:Hp.
    + intros [= <-]. apply HasPrefix_true in Hp.
      apply (f_equal length) in Hp. rewrite length_app in Hp. simpl in *. lia.
    + destruct (Index s m) as [j|] eqn:Hj; simpl; [|done].
      intros [= <-]. specialize (IH j eq_refl). lia.
Qed.

Lemma Index_None (s m a b : str) : Index s m = None -> s <> a ++ m ++ b.
Proof.
  revert a; induction s as [|c s IH]; intros a; simpl.
  - destruct (HasPrefix [] m) eqn:Hp; [done|]. intros _ H.
    destruct a; [|done]. simpl in H. destruct m; [|done]. done.
  - destruct (HasPrefix (c :: s) m) eqn:Hp; [done|].
    destruct (Index s m) eqn:Hi; [done|]. intros _ H.
    destruct a as [|a0 a].
    + simpl in H. rewrite H, HasPrefix_app in Hp. done.
    + simpl in H. injection H as -> H. by eapply IH.
Qed.

Lemma Contains_app (a m b : str) : Contains (a ++ m ++ b) m = true.
Proof.
  unfold Contains. destruct (Index (a ++ m ++ b) m) eqn:H; [done|].
  by eapply Index_None in H.
Qed.

Lemma Contains_true (s m : str) :
  Contains s m = true -> exists a b, s = a ++ m ++ b.
Proof.
  unfold Contains. destruct (Index s m) eqn:H; [|done].
  intros _. apply Index_Some in H. eauto.
Qed.

Lemma Contains_iff (s m : str) :
  Contains s m = true <-> exists a b, s = a ++ m ++ b.
Proof.
  split; [apply Contains_true|]. intros (a & b & ->). apply Contains_app.
Qed.

Lemma Contains_false (s m a b : str) : Contains s m = false -> s <> a ++ m ++ b.
Proof.
  intros H ->. by rewrite Contains_app in H.
Qed.

End StringFacts.

Section TrimFacts.
Import GoStrings.

Lemma trimLeftSpaceRev_head_aux (n : nat) :
  forall r c t, length r <= n -> trimLeftSpaceRev r = c :: t -> asciiSpace c = false.
Proof.
  induction n as [|n IH]; intros r c t Hlen.
  - destruct r; simpl in *; [done|lia].
  - destruct r as [|b0 r1]; simpl; [done|].
    destruct (asciiSpace b0) eqn:H0.
    { apply IH. simpl in Hlen. lia. }
    destruct r1 as [|b1 r2].
    { intros [= <- <-]. done. }
    destruct (space2 b1 b0).
    { apply IH. simpl in Hlen. lia. }
    destruct r2 as [|b2 r3].
    { intros [= <- <-]. done. }
    destruct (space3 b2 b1 b0).
    { apply IH. simpl in Hlen. lia. }
    intros [= <- <-]. done.
Qed.

Lemma trimLeftSpaceRev_head (r t : str) (c : ascii) :
  trimLeftSpaceRev r = c :: t -> asciiSpace c = false.
Proof. by apply (trimLeftSpaceRev_head_aux (length r)). Qed.

(** The last byte of a trimmed string is no ASCII white space. *)
Lemma TrimSpace_last (s p : str) (c : ascii) :
  TrimSpace s = p ++ [c] -> asciiSpace c = false.
Proof.
  unfold TrimSpace, trimRightSpace. intros H.
  apply (f_equal (@rev ascii)) in H. rewrite rev_involutive, rev_unit in H.
  by apply trimLeftSpaceRev_head in H.
Qed.

Lemma TrimSpace_no_LF_suffix (s : str) : HasSuffix (TrimSpace s) [LF] = false.
Proof.
  apply not_true_is_false. intros H.
  apply HasSuffix_iff in H as [p Hp].
  by apply TrimSpace_last in Hp.
Qed.


Lemma TrimSpace_nil : TrimSpace [] = [].
Proof. reflexivity. Qed.

(** [TrimLeft] and [TrimRight]. *)
Lemma TrimLeft_head (s t cutset : str) (c : ascii) :
  TrimLeft s cutset = c :: t -> inCutset cutset c = false.
Proof.
  induction s as [|d s IH]; simpl; [done|].
  destruct (inCutset cutset d) eqn:Hd; [done|].
  by intros [= <- <-].
Qed.

Lemma TrimRight_last (s p cutset : str) (c : ascii) :
  TrimRight s cutset = p ++ [c] -> inCutset cutset c = false.
Proof.
  unfold TrimRight. intros H.
  apply (f_equal (@rev ascii)) in H. rewrite rev_involutive, rev_unit in H.
  by apply TrimLeft_head in H.
Qed.

Lemma TrimRight_snoc_in (s cutset : str) (c : ascii) :
  inCutset cutset c = true -> TrimRight (s ++ [c]) cutset = TrimRight s cutset.
Proof.
  intros H. unfold TrimRight. rewrite rev_unit. simpl. by rewrite H.
Qed.

Lemma TrimRight_snoc_out (s cutset : str) (c : ascii) :
  inCutset cutset c = false -> TrimRight (s ++ [c]) cutset = s ++ [c].
Proof.
  intros H. unfold TrimRight. rewrite rev_unit. simpl. rewrite H.
  simpl. by rewrite rev_involutive.
Qed.

Lemma TrimLeft_cons_out (s cutset : str) (c : ascii) :
  inCutset cutset c = false -> TrimLeft (c :: s) cutset = c :: s.
Proof. intros H. simpl. by rewrite H. Qed.

End TrimFacts.

Section ManagerFacts.
Import GoStrings Bufio Manager Spec.

Lemma HasSuffix_snoc (p : str) (c d : ascii) :
  HasSuffix (p ++ [c]) [d] = Ascii.eqb c d.
Proof.
  destruct (Ascii.eqb c d) eqn:E.
  - apply Ascii.eqb_eq in E as ->. apply (HasSuffix_app p [d]).
  - apply HasSuffix_last_false. by apply Ascii.eqb_neq.
Qed.

Lemma HasSuffix_app_r (x y : str) (d : ascii) :
  y <> [] -> HasSuffix (x ++ y) [d] = HasSuffix y [d].
Proof.
  intros Hy. destruct y as [|c y' _] using rev_ind; [done|].
  by rewrite app_assoc, !HasSuffix_snoc.
Qed.

(** *** What the methods compute, in terms of the store *)

Lemma content_Some (text : str) (ws : list str) :
  content {| file := Some text; written := ws |} = text.
Proof. reflexivity. Qed.

Lemma Read_run (st : store) : Read st = (Ok (content st), st).
Proof. reflexivity. Qed.

Lemma HasSection_run (n : str) (st : store) :
  HasSection n st = (Ok (Contains (content st) (startMarker n)), st).
Proof. reflexivity. Qed.

Lemma Add_run (n c : str) (st : store) :
  Add n c st =
  if Contains (content st) (startMarker n)
  then (Err (ErrSectionExists n), st)
  else (Ok tt, {| file := Some (addBuild (content st) n c);
                  written := written st ++ [addBuild (content st) n c] |}).
Proof.
  unfold Add, bind. rewrite HasSection_run.
  by destruct (Contains (content st) (startMarker n)).
Qed.

Lemma Delete_run (n : str) (st : store) :
  Delete n st =
  if decide (content st = []) then (Err (ErrSectionNotFound n), st)
  else
    let st' := fold_left (deleteStep (startMarker n) (endMarker n))
                 (Scan (content st)).1 deleteInit in
    if (Scan (content st)).2 then (Err ErrReading, st)
    else if negb (foundSection st') then (Err (ErrSectionNotFound n), st)
    else (Ok tt, {| file := Some (finalContent (result_ st'));
                    written := written st ++ [finalContent (result_ st')] |}).
Proof.
  unfold Delete, bind. rewrite Read_run.
  destruct (decide (content st = [])); [done|].
  fold (startMarker n) (endMarker n).
  destruct (Scan (content st)) as [ls e]; simpl.
  destruct e; [done|].
  by destruct (foundSection _).
Qed.

Lemma addBuild_eq (cur n c : str) :
  addBuild cur n c =
  addPrefix cur ++ (startMarker n ++ [LF]) ++ (TrimSpace c ++ [LF])
  ++ (endMarker n ++ [LF]).
Proof.
  unfold addBuild, addPrefix. rewrite TrimSpace_no_LF_suffix. simpl negb. cbv iota.
  fold (startMarker n) (endMarker n).
  destruct (decide (cur <> [])); destruct (negb (HasSuffix cur [LF]));
    cbn [app]; rewrite <- ?app_assoc; reflexivity.
Qed.

Lemma addBuild_contains_start (cur n c : str) :
  Contains (addBuild cur n c) (startMarker n) = true.
Proof.
  rewrite addBuild_eq. rewrite <- (app_assoc (startMarker n)).
  apply Contains_app.
Qed.

(** *** Trailing newlines *)

Lemma wellTerminated_snoc (p : str) :
  HasSuffix p [LF] = false -> wellTerminated (p ++ [LF]) = true.
Proof.
  intros Hp. unfold wellTerminated.
  rewrite (HasSuffix_app p [LF]).
  destruct (HasSuffix (p ++ [LF]) [LF; LF]) eqn:H2.
  - apply HasSuffix_iff in H2 as [q Hq].
    change [LF; LF] with ([LF] ++ [LF]) in Hq. rewrite app_assoc in Hq.
    apply app_inj_tail in Hq as [-> _].
    by rewrite (HasSuffix_app q [LF]) in Hp.
  - apply orb_true_r.
Qed.

Lemma finalContent_wellTerminated (r : str) : wellTerminated (finalContent r) = true.
Proof.
  unfold finalContent.
  destruct (decide (TrimRight r [LF; TAB; SP] <> [])) as [Hne|He].
  - apply wellTerminated_snoc.
    destruct (TrimRight r [LF; TAB; SP]) as [|c t _] eqn:E using rev_ind; [done|].
    rewrite HasSuffix_snoc. apply TrimRight_last in E.
    destruct (Ascii.eqb c LF) eqn:Hc; [|done].
    apply Ascii.eqb_eq in Hc as ->. done.
  - destruct (decide (TrimRight r [LF; TAB; SP] = [])) as [->|]; done.
Qed.


End ManagerFacts.

Section ScanFacts.
Import GoStrings Bufio Manager Spec.

Lemma scanTokens_sub (ls : list str) (l : str) :
  l ∈ (scanTokens ls).1 -> l ∈ map dropCR ls.
Proof.
  induction ls as [|x ls IH]; simpl; [done|].
  destruct (MaxScanTokenSize <=? N.of_nat (length x))%N; simpl.
  { intros H. by apply elem_of_nil in H. }
  destruct (scanTokens ls) as [ts e]; simpl in *.
  intros [->|H]%elem_of_cons; [left|right; by apply IH].
Qed.

Lemma scanTokens_ok (ls : list str) :
  (scanTokens ls).2 = false -> (scanTokens ls).1 = map dropCR ls.
Proof.
  induction ls as [|x ls IH]; simpl; [done|].
  destruct (MaxScanTokenSize <=? N.of_nat (length x))%N; simpl; [done|].
  destruct (scanTokens ls) as [ts e]; simpl in *.
  intros ->. by rewrite IH.
Qed.

Lemma scanTokens_short (ls : list str) :
  (scanTokens ls).2 = negb (forallb (fun l => (N.of_nat (length l) <? MaxScanTokenSize)%N) ls).
Proof.
  induction ls as [|x ls IH]; simpl; [done|].
  rewrite N.ltb_antisym.
  destruct (MaxScanTokenSize <=? N.of_nat (length x))%N; simpl; [done|].
  destruct (scanTokens ls) as [ts e]; simpl in *. done.
Qed.

Lemma Scan_short (text : str) : (Scan text).2 = negb (shortLines text).
Proof. apply scanTokens_short. Qed.

Lemma Scan_lines (text : str) :
  shortLines text = true -> Scan text = (lines text, false).
Proof.
  intros H. pose proof (Scan_short text) as E. rewrite H in E. simpl in E.
  pose proof (scanTokens_ok (rawLines text) E) as E1.
  unfold Scan, lines in *. destruct (scanTokens (rawLines text)); simpl in *.
  by subst.
Qed.

Lemma Scan_sub (text l : str) : l ∈ (Scan text).1 -> l ∈ lines text.
Proof. apply scanTokens_sub. Qed.

Lemma hasLine_false (marker text : str) :
  hasLine marker text = false ->
  Forall (fun l => TrimSpace l <> marker) (lines text).
Proof.
  unfold hasLine. induction (lines text) as [|l ls IH]; simpl; [constructor|].
  intros [H1 H2]%orb_false_iff. constructor; [|by apply IH].
  by apply bool_decide_eq_false in H1.
Qed.

Lemma hasLine_true (marker text : str) :
  hasLine marker text = true <->
  exists l, l ∈ lines text /\ TrimSpace l = marker.
Proof.
  unfold hasLine. rewrite existsb_exists. split.
  - intros (l & Hin & H). exists l. split; [by apply list_elem_of_In|].
    by apply bool_decide_eq_true in H.
  - intros (l & Hin & H). exists l. split; [by apply list_elem_of_In|].
    by apply bool_decide_eq_true.
Qed.

(** A loop over lines none of which is the start marker finds no section. *)
Lemma deleteLoop_not_found (sm em : str) (ls : list str) (st : delState) :
  Forall (fun l => TrimSpace l <> sm) ls ->
  foundSection (fold_left (deleteStep sm em) ls st) = foundSection st.
Proof.
  intros H. revert st. induction H as [|l ls Hl _ IH]; intros st; simpl; [done|].
  rewrite IH. unfold deleteStep.
  destruct (decide (TrimSpace l = sm)); [done|].
  destruct (decide (TrimSpace l = em)); [done|].
  destruct (negb (inSection st)); [|done].
  destruct (decide (TrimSpace l = [])); [|done].
  by destruct (prevLineEmpty st).
Qed.

End ScanFacts.

(* ================================================================== *)
(** * The claims *)

Section EditorClaims.
Import GoStrings Bufio Manager Spec.

(** C3, as the code behaves: [HasSection] looks for the start marker as a
    substring of the content.  With a section [Golang] in the file,
    [HasSection "Go"] is true although no line is the start marker of [Go]:
    [ListSections] lists only [Golang], [Delete "Go"] finds no section, and
    [Add "Go"] is refused as a duplicate. *)
Theorem HasSection_matches_substring :
  HasSection "Go" (storeOf golangFile) = (Ok true, storeOf golangFile)
  /\ hasLine (startMarker "Go") golangFile = false
  /\ ListSections (storeOf golangFile) = (Ok ([lit "Golang"], false), storeOf golangFile)
  /\ Delete "Go" (storeOf golangFile) = (Err (ErrSectionNotFound "Go"), storeOf golangFile)
  /\ Add "Go" "bin/" (storeOf golangFile) = (Err (ErrSectionExists "Go"), storeOf golangFile).
Proof. repeat split; vm_compute; reflexivity. Qed.

(** What [HasSection] decides in general: an occurrence of the start marker
    anywhere in the content. *)
Lemma HasSection_iff_substring (n : str) (st : store) :
  (HasSection n st).1 = Ok true <->
  exists a b, content st = a ++ startMarker n ++ b.
Proof.
  rewrite HasSection_run. cbn [fst].
  split.
  - intros [= H]. by apply Contains_iff.
  - intros H. apply Contains_iff in H. by rewrite H.
Qed.

(** C6: after a successful [Add n c1], [HasSection n] returns true, and
    [Add n c2] returns the "already exists" error and leaves the store (the
    file and the write log) as it was. *)
Theorem Add_twice_rejected (st : store) (n c1 c2 : str) :
  (Add n c1 st).1 = Ok tt ->
  HasSection n (Add n c1 st).2 = (Ok true, (Add n c1 st).2)
  /\ Add n c2 (Add n c1 st).2 = (Err (ErrSectionExists n), (Add n c1 st).2).
Proof.
  rewrite (Add_run n c1 st).
  destruct (Contains (content st) (startMarker n)) eqn:E; simpl; [done|].
  intros _. rewrite HasSection_run, Add_run, !content_Some.
  by rewrite addBuild_contains_start.
Qed.

Lemma Add_twice_rejected_witness :
  (Add "Go" "*.exe" emptyStore).1 = Ok tt
  /\ HasSection "Go" (Add "Go" "*.exe" emptyStore).2
     = (Ok true, (Add "Go" "*.exe" emptyStore).2)
  /\ Add "Go" "bin/" (Add "Go" "*.exe" emptyStore).2
     = (Err (ErrSectionExists "Go"), (Add "Go" "*.exe" emptyStore).2).
Proof.
  split; [reflexivity|].
  apply (Add_twice_rejected emptyStore "Go" "*.exe" "bin/"). reflexivity.
Defined.

(** C5, as the code behaves: when no line of the file is the start marker
    of the section (an absent or empty file included), [Delete] returns an
    error and leaves the store as it was, nothing written.  The error is
    "section not found", unless a line of 64 KiB or more stopped the
    scanner: then it is the read error. *)
Theorem Delete_missing_section (st : store) (n : str) :
  hasLine (startMarker n) (content st) = false ->
  Delete n st =
  (Err (if shortLines (content st) then ErrSectionNotFound n else ErrReading), st).
Proof.
  intros H. rewrite Delete_run.
  destruct (decide (content st = [])) as [->|Hne]; [done|].
  cbv zeta. rewrite Scan_short.
  destruct (shortLines (content st)); simpl; [|done].
  rewrite deleteLoop_not_found; [done|].
  apply hasLine_false in H. rewrite Forall_forall in *.
  intros l Hl. apply H. by apply Scan_sub.
Qed.

Lemma Delete_missing_section_witness :
  hasLine (startMarker "Python") (content (Add "Go" "*.exe" emptyStore).2) = false
  /\ Delete "Python" (Add "Go" "*.exe" emptyStore).2
     = (Err (ErrSectionNotFound "Python"), (Add "Go" "*.exe" emptyStore).2).
Proof.
  split; [reflexivity|].
  apply (Delete_missing_section (Add "Go" "*.exe" emptyStore).2 "Python").
  reflexivity.
Defined.

End EditorClaims.

Section PatternClaims.
Import GoStrings Bufio Manager Spec.












(** *** [AddPatterns] *)



(** The example of the specification: of [""], ["  "] and ["x"] only ["x"]
    counts; a second call skips it and writes nothing. *)
Example AddPatterns_example :
  (AddPatterns [lit ""; lit "  "; lit "x"] emptyStore).1 = ([lit "x"], [], None)
  /\ (AddPatterns [lit "x"] (AddPatterns [lit ""; lit "  "; lit "x"] emptyStore).2)
     = (([], [lit "x"], None), (AddPatterns [lit ""; lit "  "; lit "x"] emptyStore).2).
Proof. split; vm_compute; reflexivity. Qed.

End PatternClaims.

Section ResolverClaims.
Import GoStrings Spec.

Lemma filter_all {A : Type} (P : A -> Prop) `{forall x, Decision (P x)} (l : list A) :
  Forall P l -> filter P l = l.
Proof.
  induction 1 as [|x l Hx _ IH]; [done|].
  rewrite filter_cons. destruct (decide (P x)); [by rewrite IH|done].
Qed.

Lemma filter_none {A : Type} (P : A -> Prop) `{forall x, Decision (P x)} (l : list A) :
  Forall (fun x => ~ P x) l -> filter P l = [].
Proof.
  induction 1 as [|x l Hx _ IH]; [done|].
  rewrite filter_cons. destruct (decide (P x)); [done|exact IH].
Qed.

Section WithToLower.
Variable ToLower : str -> str.

Lemma listLocal_fold (files acc : list TemplateFile.t) (names : gmap str bool) :
  (fold_left (SourceManager.listLocalStep ToLower) files (acc, names)).1 = acc ++ files
  /\ forall k,
       SourceManager.readName
         (fold_left (SourceManager.listLocalStep ToLower) files (acc, names)).2 k = true
       <-> SourceManager.readName names k = true \/ k ∈ lowerNames ToLower files.
Proof.
  revert acc names. induction files as [|f files IH]; intros acc names; simpl.
  - split; [by rewrite app_nil_r|]. intros k. split; [by left|].
    intros [H|H]; [done|]. by apply elem_of_nil in H.
  - destruct (IH (acc ++ [f]) (<[ToLower (TemplateFile.Name f) := true]> names))
      as [E1 E2].
    unfold SourceManager.listLocalStep at 2 4. cbn [fst snd].
    split; [by rewrite E1, <- app_assoc|].
    intros k. rewrite E2. unfold SourceManager.readName.
    destruct (decide (ToLower (TemplateFile.Name f) = k)) as [<-|Hne].
    + rewrite lookup_insert_eq. simpl. split; [intros _; right; left|by left].
    + rewrite lookup_insert_ne by done. rewrite elem_of_cons.
      split; [intros [H|H]; auto|intros [H|[H|H]]; auto; congruence].
Qed.

Lemma listRemoteFile_fold (names : gmap str bool) (localFiles files all : list TemplateFile.t) :
  (forall k, SourceManager.readName names k = true <-> k ∈ lowerNames ToLower localFiles) ->
  fold_left (SourceManager.listRemoteFileStep ToLower names) files all
  = all ++ filter (fun f => ToLower (TemplateFile.Name f) ∉ lowerNames ToLower localFiles) files.
Proof.
  intros Hn. revert all. induction files as [|f files IH]; intros all; simpl.
  - by rewrite app_nil_r.
  - rewrite IH, filter_cons. unfold SourceManager.listRemoteFileStep.
    destruct (SourceManager.readName names (ToLower (TemplateFile.Name f))) eqn:E.
    + apply Hn in E. simpl. destruct (decide _); [done|reflexivity].
    + simpl. destruct (decide _) as [|Hin]; [by rewrite <- app_assoc|].
      exfalso. apply Hin. intros Hk. apply Hn in Hk. congruence.
Qed.

Lemma listRemote_fold (names : gmap str bool) (localFiles all : list TemplateFile.t)
  (remote : list Source.t) :
  (forall k, SourceManager.readName names k = true <-> k ∈ lowerNames ToLower localFiles) ->
  fold_left (SourceManager.listRemoteStep ToLower names) remote all
  = all ++ flat_map (remoteEntries ToLower localFiles) remote.
Proof.
  intros Hn. revert all. induction remote as [|s remote IH]; intros all; simpl.
  - by rewrite app_nil_r.
  - rewrite IH. unfold SourceManager.listRemoteStep, remoteEntries.
    destruct (Source.List s) as [files|e].
    + by rewrite (listRemoteFile_fold names localFiles), <- app_assoc.
    + done.
Qed.

Lemma remoteEntries_not_local (localFiles : list TemplateFile.t) (remote : list Source.t) :
  Forall (fun f => ~ ToLower (TemplateFile.Name f) ∈ lowerNames ToLower localFiles)
    (flat_map (remoteEntries ToLower localFiles) remote).
Proof.
  apply Forall_forall. intros f Hin.
  apply list_elem_of_In, in_flat_map in Hin as (s & _ & Hf).
  unfold remoteEntries in Hf. destruct (Source.List s); [|done].
  apply list_elem_of_In, list_elem_of_filter in Hf as [Hf _]. exact Hf.
Qed.

(** C8: when Local lists its files, the aggregate listing is Local's files
    followed, for each remote source in order, by the files of that source
    whose case-insensitive name does not appear in Local's listing, a remote
    source that fails contributing nothing; so the entries of the aggregate
    whose case-insensitive name appears in Local's listing are Local's
    entries and no other. *)
Theorem List_local_then_remotes (sm : SourceManager.t) (localFiles : list TemplateFile.t) :
  Source.List (SourceManager.local sm) = Ok localFiles ->
  SourceManager.List ToLower sm
  = Ok (localFiles ++ flat_map (remoteEntries ToLower localFiles) (SourceManager.remote sm))
  /\ filter (fun f => ToLower (TemplateFile.Name f) ∈ lowerNames ToLower localFiles)
       (localFiles ++ flat_map (remoteEntries ToLower localFiles) (SourceManager.remote sm))
     = localFiles.
Proof.
  intros Hl. split.
  - unfold SourceManager.List. rewrite Hl.
    destruct (listLocal_fold localFiles [] ∅) as [E1 E2].
    destruct (fold_left _ localFiles ([], ∅)) as [allFiles names].
    cbn [fst snd] in *. subst allFiles. f_equal.
    apply listRemote_fold. intros k. rewrite E2.
    unfold SourceManager.readName. rewrite lookup_empty. simpl.
    split; [by intros [|]|by right].
  - rewrite filter_app, filter_all, filter_none; [by rewrite app_nil_r| |].
    + apply remoteEntries_not_local.
    + apply Forall_forall. intros f Hf. unfold lowerNames.
      apply list_elem_of_In, in_map_iff. exists f. split; [done|].
      by apply list_elem_of_In.
Qed.

(** When Local fails to list, the aggregate listing fails. *)
Lemma List_local_error (sm : SourceManager.t) (err : str) :
  Source.List (SourceManager.local sm) = Err err ->
  SourceManager.List ToLower sm = Err (lit "failed to list local templates: " ++ err).
Proof. intros H. unfold SourceManager.List. by rewrite H. Qed.

End WithToLower.

(** The example of the specification: Local and the first remote both list
    [myproject]; the aggregate has Local's entry only. *)
Lemma List_local_then_remotes_witness :
  let mine := TemplateFile.mk "myproject" "/home/u/.config/gitignore/myproject.gitignore" "" "local" in
  let theirs := TemplateFile.mk "MyProject" "MyProject.gitignore" "" "github" in
  let go := TemplateFile.mk "Go" "Go.gitignore" "" "github" in
  let sm := SourceManager.mk (Source.mk "local" (Ok [mine]))
              [Source.mk "github" (Ok [theirs; go]); Source.mk "toptal" (Err (lit "timeout"))]
              [] in
  Source.List (SourceManager.local sm) = Ok [mine]
  /\ SourceManager.List asciiToLower sm = Ok [mine; go].
Proof.
  intros mine theirs go sm. split; [reflexivity|].
  destruct (List_local_then_remotes asciiToLower sm [mine] eq_refl) as [E _].
  rewrite E. vm_compute. reflexivity.
Defined.

(** *** [ListBySource] *)

Lemma listBySourceStep_insert (result : gmap str SourceManager.SourceResult) (s : Source.t) :
  SourceManager.listBySourceStep result s = <[Source.Name s := outcome s]> result.
Proof.
  unfold SourceManager.listBySourceStep, outcome. by destruct (Source.List s).
Qed.

Lemma listBySource_fold_other (srcs : list Source.t)
  (result : gmap str SourceManager.SourceResult) (k : str) :
  k ∉ map Source.Name srcs ->
  fold_left SourceManager.listBySourceStep srcs result !! k = result !! k.
Proof.
  revert result. induction srcs as [|s srcs IH]; intros result Hk; simpl; [done|].
  simpl in Hk. apply not_elem_of_cons in Hk as [Hne Hk].
  rewrite IH by done. rewrite listBySourceStep_insert.
  by rewrite lookup_insert_ne.
Qed.

Lemma listBySource_fold_source (srcs : list Source.t)
  (result : gmap str SourceManager.SourceResult) (s : Source.t) :
  NoDup (map Source.Name srcs) -> s ∈ srcs ->
  fold_left SourceManager.listBySourceStep srcs result !! Source.Name s = Some (outcome s).
Proof.
  revert result. induction srcs as [|x srcs IH]; intros result Hnd Hs; simpl.
  { by apply elem_of_nil in Hs. }
  simpl in Hnd. apply NoDup_cons in Hnd as [Hx Hnd].
  apply elem_of_cons in Hs as [->|Hs].
  - rewrite listBySource_fold_other by done.
    rewrite listBySourceStep_insert. apply lookup_insert_eq.
  - by apply IH.
Qed.

Lemma listBySource_fold_keys (srcs : list Source.t)
  (result : gmap str SourceManager.SourceResult) (k : str) :
  is_Some (fold_left SourceManager.listBySourceStep srcs result !! k) ->
  k ∈ map Source.Name srcs \/ is_Some (result !! k).
Proof.
  revert result. induction srcs as [|x srcs IH]; intros result; simpl; [by right|].
  intros H. apply IH in H as [H|H]; [left; by right|].
  rewrite listBySourceStep_insert in H.
  destruct (decide (Source.Name x = k)) as [<-|Hne]; [left; by left|].
  rewrite lookup_insert_ne in H by done. by right.
Qed.

(** C9: [ListBySource] returns no error, and its map has an entry for every
    configured source (sources being told apart by their names): a failing
    source is mapped to its error with an empty file list, a succeeding one
    to its files with a nil error; the map has no other entry. *)
Theorem ListBySource_every_source (sm : SourceManager.t) :
  NoDup (map Source.Name (SourceManager.sources sm)) ->
  (SourceManager.ListBySource sm).2 = None
  /\ (forall s, s ∈ SourceManager.sources sm ->
        (SourceManager.ListBySource sm).1 !! Source.Name s = Some (outcome s)
        /\ (forall err, Source.List s = Err err ->
              outcome s = {| SourceManager.Files := []; SourceManager.Error := Some err |})
        /\ (forall files, Source.List s = Ok files ->
              outcome s = {| SourceManager.Files := files; SourceManager.Error := None |}))
  /\ (forall k, is_Some ((SourceManager.ListBySource sm).1 !! k) ->
        k ∈ map Source.Name (SourceManager.sources sm)).
Proof.
  intros Hnd. split; [done|]. split.
  - intros s Hs. split; [by apply listBySource_fold_source|].
    unfold outcome. split; intros x ->; done.
  - intros k H. apply listBySource_fold_keys in H as [H|H]; [done|].
    rewrite lookup_empty in H. by destruct H.
Qed.

Lemma ListBySource_every_source_witness :
  let github := Source.mk "github" (Err (lit "404 not found")) in
  let local := Source.mk "local" (Ok [TemplateFile.mk "Custom" "" "" ""]) in
  let sm := SourceManager.mk local [github] [github; local] in
  NoDup (map Source.Name (SourceManager.sources sm))
  /\ (SourceManager.ListBySource sm).2 = None
  /\ (SourceManager.ListBySource sm).1 !! lit "github"
     = Some {| SourceManager.Files := []; SourceManager.Error := Some (lit "404 not found") |}
  /\ (SourceManager.ListBySource sm).1 !! lit "local"
     = Some {| SourceManager.Files := [TemplateFile.mk "Custom" "" "" ""];
               SourceManager.Error := None |}.
Proof.
  intros github local sm.
  assert (Hnd : NoDup (map Source.Name (SourceManager.sources sm))).
  { apply NoDup_cons. split; [|apply NoDup_singleton].
    intros H. apply list_elem_of_singleton in H. vm_compute in H. discriminate. }
  split; [exact Hnd|].
  destruct (ListBySource_every_source sm Hnd) as (E & Hs & _).
  split; [exact E|]. split.
  - apply (Hs github). by left.
  - apply (Hs local). right. by left.
Defined.

(** The sources [NewSourceManager] configures have the names [local],
    [github] and [toptal]: each has its entry. *)
Lemma NewSourceManager_names
  (localList githubList toptalList : result str (list TemplateFile.t))
  (templateURL : str) (enableToptal : bool) (sm : SourceManager.t) :
  SourceManager.NewSourceManager localList githubList toptalList templateURL enableToptal
  = Ok sm ->
  NoDup (map Source.Name (SourceManager.sources sm)).
Proof.
  unfold SourceManager.NewSourceManager.
  destruct (Github.parseRepoURL templateURL); [|done].
  intros [= <-]. cbn [SourceManager.sources].
  destruct enableToptal; cbn [app map Source.Name];
    repeat (apply NoDup_cons; split;
            [rewrite ?elem_of_cons, ?elem_of_nil;
             intros H; repeat destruct H as [H|H]; try done; vm_compute in H; discriminate|]);
    apply NoDup_nil_2.
Qed.

End ResolverClaims.

Section UrlFacts.
Import GoStrings Spec.

Lemma TrimSuffix_app (x suf : str) : TrimSuffix (x ++ suf) suf = x.
Proof.
  unfold TrimSuffix. rewrite HasSuffix_app, length_app.
  replace (length x + length suf - length suf) with (length x) by lia.
  by rewrite take_app_length.
Qed.

Lemma TrimSuffix_none (s suf : str) : HasSuffix s suf = false -> TrimSuffix s suf = s.
Proof. unfold TrimSuffix. by intros ->. Qed.

Lemma TrimPrefix_app (p r : str) : TrimPrefix (p ++ r) p = r.
Proof. unfold TrimPrefix. by rewrite HasPrefix_app, drop_app_length. Qed.

Lemma Contains_app_l_false (s t m : str) :
  Contains (s ++ t) m = false -> Contains s m = false.
Proof.
  intros H. apply not_true_is_false. intros (a & b & ->)%Contains_iff.
  rewrite <- !app_assoc in H. by rewrite Contains_app in H.
Qed.

Lemma Contains_false_Index (s m : str) : Contains s m = false -> Index s m = None.
Proof. unfold Contains. by destruct (Index s m). Qed.

(** A byte that does not occur in the suffix: the suffix lies after it. *)
Lemma HasSuffix_after_byte (x r suf : str) (c : ascii) :
  c ∉ suf -> HasSuffix (x ++ c :: r) suf = HasSuffix r suf.
Proof.
  intros Hc. destruct (HasSuffix r suf) eqn:E.
  - apply HasSuffix_iff in E as [p ->]. apply HasSuffix_iff.
    exists (x ++ c :: p). by rewrite <- app_assoc.
  - apply not_true_is_false. intros [p Hp]%HasSuffix_iff.
    apply app_eq_inv in Hp as [(k & _ & Hk)|(k & _ & Hk)].
    + apply Hc. rewrite Hk. apply elem_of_app. right. left.
    + destruct k as [|d k].
      * apply Hc. simpl in Hk. rewrite <- Hk. left.
      * injection Hk as <- ->.
        by rewrite (HasSuffix_app k suf) in E.
Qed.

(** Cutting at a byte. *)
Lemma Index_byte_none (s : str) (c : ascii) : c ∉ s -> Index s [c] = None.
Proof.
  induction s as [|d s IH]; intros Hc; simpl; [done|].
  apply not_elem_of_cons in Hc as [Hne Hc].
  destruct (Ascii.eqb d c) eqn:E; [apply Ascii.eqb_eq in E; congruence|].
  simpl. by rewrite IH.
Qed.

Lemma Index_byte_first (a b : str) (c : ascii) :
  c ∉ a -> Index (a ++ c :: b) [c] = Some (length a).
Proof.
  induction a as [|d a IH]; intros Hc; simpl.
  - by rewrite Ascii.eqb_refl.
  - apply not_elem_of_cons in Hc as [Hne Hc].
    destruct (Ascii.eqb d c) eqn:E; [apply Ascii.eqb_eq in E; congruence|].
    simpl. by rewrite IH.
Qed.

Lemma genSplit_S (n : nat) (s sep : str) :
  genSplit (S n) s sep =
  match Index s sep with
  | None => [s]
  | Some m => take m s :: genSplit n (drop (m + length sep) s) sep
  end.
Proof. reflexivity. Qed.

Lemma genSplit_none (n : nat) (s sep : str) :
  Index s sep = None -> genSplit n s sep = [s].
Proof. intros H. destruct n; simpl; [done|]. by rewrite H. Qed.

Lemma Split_two (a b : str) (c : ascii) :
  c ∉ a -> c ∉ b -> Split (a ++ c :: b) [c] = [a; b].
Proof.
  intros Ha Hb. unfold Split. rewrite length_app. simpl length.
  replace (length a + S (length b)) with (S (length a + length b)) by lia.
  rewrite genSplit_S, Index_byte_first by done.
  rewrite take_app_length.
  replace (length a + length [c]) with (length (a ++ [c])) by (by rewrite length_app).
  replace (a ++ c :: b) with ((a ++ [c]) ++ b) by (by rewrite <- app_assoc).
  rewrite drop_app_length. rewrite genSplit_none; [done|].
  by apply Index_byte_none.
Qed.

Lemma Split_one (a : str) (c : ascii) : c ∉ a -> Split a [c] = [a].
Proof. intros Ha. apply genSplit_none. by apply Index_byte_none. Qed.

Lemma segment_spec (s : str) :
  segment s = true -> s <> [] /\ "/"%char ∉ s.
Proof.
  unfold segment. intros [H1 H2]%andb_true_iff.
  apply bool_decide_eq_true in H1. split; [done|].
  apply negb_true_iff in H2. intros Hin.
  apply list_elem_of_In in Hin.
  assert (inCutset s "/"%char = true); [|congruence].
  unfold inCutset. apply existsb_exists. exists "/"%char. split; [done|].
  apply Ascii.eqb_refl.
Qed.

Lemma inCutset_slash (c : ascii) : c <> "/"%char -> inCutset (lit "/") c = false.
Proof.
  intros H. change (lit "/") with ["/"%char]. unfold inCutset. simpl.
  apply orb_false_iff. split; [|done]. by apply Ascii.eqb_neq.
Qed.

(** A path of two segments is not changed by [Trim] with ["/"], and one
    trailing ['/'] is cut. *)
Lemma Trim_path (owner repo : str) :
  segment owner = true -> segment repo = true ->
  Trim (owner ++ "/"%char :: repo) "/" = owner ++ "/"%char :: repo
  /\ Trim ((owner ++ "/"%char :: repo) ++ ["/"%char]) "/" = owner ++ "/"%char :: repo.
Proof.
  intros [Ho1 Ho2]%segment_spec [Hr1 Hr2]%segment_spec.
  assert (E : Trim (owner ++ "/"%char :: repo) "/" = owner ++ "/"%char :: repo).
  { unfold Trim.
    destruct repo as [|d repo' _] using rev_ind; [done|].
    replace (owner ++ "/"%char :: repo' ++ [d])
      with ((owner ++ "/"%char :: repo') ++ [d]) by (by rewrite <- app_assoc).
    rewrite TrimRight_snoc_out.
    2:{ apply inCutset_slash. intros ->. apply Hr2, elem_of_app. right. left. }
    destruct owner as [|o owner']; [done|].
    cbn [app]. apply TrimLeft_cons_out, inCutset_slash.
    intros ->. apply Ho2. left. }
  split; [exact E|].
  unfold Trim in *. rewrite TrimRight_snoc_in; [exact E|].
  reflexivity.
Qed.

End UrlFacts.

Section UrlClaims.
Import GoStrings Spec Github.

Lemma Split_https (rest : str) :
  Contains rest "github.com/" = false ->
  Split ("https://github.com/" ++ rest) "github.com/" = [lit "https://"; rest].
Proof.
  intros H. apply Contains_false_Index in H.
  unfold Split. rewrite length_app.
  change (length (lit "https://github.com/") + length rest)
    with (S (18 + length rest)).
  rewrite genSplit_S.
  change (Index (lit "https://github.com/" ++ rest) (lit "github.com/")) with (Some 8).
  cbv iota beta.
  change (take 8 (lit "https://github.com/" ++ rest)) with (lit "https://").
  change (drop (8 + length (lit "github.com/")) (lit "https://github.com/" ++ rest)) with rest.
  by rewrite genSplit_none.
Qed.

Lemma parse_https_path (owner repo rest : str) :
  segment owner = true -> segment repo = true ->
  Contains rest "github.com/" = false ->
  Trim rest "/" = owner ++ "/"%char :: repo ->
  HasSuffix ("https://github.com/" ++ rest) ".git" = false ->
  parseRepoURL ("https://github.com/" ++ rest) = Ok (owner, repo).
Proof.
  intros Ho Hr Hc Ht Hs. unfold parseRepoURL.
  rewrite TrimSuffix_none by done.
  change (lit "https://github.com/") with (lit "https://" ++ lit "github.com/").
  rewrite <- app_assoc, Contains_app.
  change (lit "https://" ++ lit "github.com/" ++ rest) with (lit "https://github.com/" ++ rest).
  rewrite Split_https by done. rewrite Ht.
  apply segment_spec in Ho as [_ Ho]. apply segment_spec in Hr as [_ Hr].
  change (lit "/") with ["/"%char]. by rewrite Split_two.
Qed.

Lemma Contains_ssh (rest : str) :
  Contains ("git@github.com:" ++ rest) "github.com/" = Contains rest "github.com/".
Proof.
  unfold Contains.
  change (Index (lit "git@github.com:" ++ rest) (lit "github.com/"))
    with (S <$> (S <$> (S <$> (S <$> (S <$> (S <$> (S <$> (S <$> (S <$> (S <$>
          (S <$> (S <$> (S <$> (S <$> (S <$> Index rest (lit "github.com/")))))))))))))))).
  by destruct (Index rest (lit "github.com/")).
Qed.

Lemma parse_ssh_path (owner repo : str) :
  segment owner = true -> segment repo = true ->
  Contains (owner ++ "/"%char :: repo) "github.com/" = false ->
  HasSuffix ("git@github.com:" ++ owner ++ "/"%char :: repo) ".git" = false ->
  parseRepoURL ("git@github.com:" ++ owner ++ "/"%char :: repo) = Ok (owner, repo).
Proof.
  intros Ho Hr Hc Hs. unfold parseRepoURL.
  rewrite TrimSuffix_none by done.
  rewrite Contains_ssh, Hc, HasPrefix_app, TrimPrefix_app.
  apply segment_spec in Ho as [_ Ho]. apply segment_spec in Hr as [_ Hr].
  change (lit "/") with ["/"%char]. by rewrite Split_two.
Qed.

End UrlClaims.

Section UrlTheorems.
Import GoStrings Spec Github.

Lemma not_in_git_suffix : "/"%char ∉ lit ".git".
Proof.
  intros H. change (lit ".git") with ["."%char; "g"%char; "i"%char; "t"%char] in H.
  rewrite !elem_of_cons in H. rewrite elem_of_nil in H.
  destruct H as [H|[H|[H|[H|[]]]]]; discriminate.
Qed.

(** C4, as the code behaves: the host must be [github.com].  For an owner
    and a repository name that are path segments, with no [github.com/]
    inside [owner/repo/], the URLs [https://github.com/owner/repo.git],
    [https://github.com/owner/repo/], [https://github.com/owner/repo] (a
    name not ending in [.git]) and [git@github.com:owner/repo.git] all parse
    to [(owner, repo)]; a string that, one trailing [.git] removed, neither
    contains [github.com/] nor starts with [git@github.com:] is refused;
    [https://github.com/owner] is refused. *)
Theorem parseRepoURL_github (owner repo : str) :
  segment owner = true -> segment repo = true ->
  Contains (owner ++ "/" ++ repo ++ "/") "github.com/" = false ->
  parseRepoURL ("https://github.com/" ++ owner ++ "/" ++ repo ++ ".git") = Ok (owner, repo)
  /\ parseRepoURL ("https://github.com/" ++ owner ++ "/" ++ repo ++ "/") = Ok (owner, repo)
  /\ (HasSuffix repo ".git" = false ->
      parseRepoURL ("https://github.com/" ++ owner ++ "/" ++ repo) = Ok (owner, repo))
  /\ parseRepoURL ("git@github.com:" ++ owner ++ "/" ++ repo ++ ".git") = Ok (owner, repo)
  /\ (forall u,
        Contains (TrimSuffix u ".git") "github.com/" = false ->
        HasPrefix (TrimSuffix u ".git") "git@github.com:" = false ->
        parseRepoURL u = Err (ErrUnsupportedURLFormat (TrimSuffix u ".git")))
  /\ parseRepoURL "https://github.com/owner"
     = Err (ErrInvalidGitHubURL "https://github.com/owner").
Proof.
  intros Ho Hr Hc.
  change (lit "/") with ["/"%char] in *. cbn [app] in *.
  assert (Hc' : Contains (owner ++ "/"%char :: repo) "github.com/" = false).
  { apply (Contains_app_l_false _ ["/"%char]). by rewrite <- app_assoc. }
  destruct (Trim_path owner repo Ho Hr) as [Ht1 Ht2].
  assert (Hplain : forall pre, HasSuffix repo ".git" = false ->
            HasSuffix (pre ++ owner ++ "/"%char :: repo) ".git" = false).
  { intros pre H. rewrite app_assoc, HasSuffix_after_byte; [done|].
    apply not_in_git_suffix. }
  assert (Hgit : forall pre,
            TrimSuffix (pre ++ owner ++ "/"%char :: repo ++ ".git") ".git"
            = pre ++ owner ++ "/"%char :: repo).
  { intros pre.
    replace (pre ++ owner ++ "/"%char :: repo ++ ".git")
      with ((pre ++ owner ++ "/"%char :: repo) ++ ".git").
    - apply TrimSuffix_app.
    - by rewrite <- !app_assoc. }
  split; [|split; [|split; [|split; [|split]]]].
  - (* .git removed, then the plain form of the same string *)
    unfold parseRepoURL. rewrite Hgit.
    change (lit "https://github.com/") with (lit "https://" ++ lit "github.com/").
    rewrite <- app_assoc, Contains_app.
    change (lit "https://" ++ lit "github.com/" ++ owner ++ "/"%char :: repo)
      with (lit "https://github.com/" ++ owner ++ "/"%char :: repo).
    rewrite Split_https by done. rewrite Ht1.
    apply segment_spec in Ho as [_ Ho']. apply segment_spec in Hr as [_ Hr'].
    change (lit "/") with ["/"%char]. by rewrite Split_two.
  - apply (parse_https_path owner repo); try done.
    + rewrite <- Ht2. by rewrite <- app_assoc.
    + replace (lit "https://github.com/" ++ owner ++ "/"%char :: repo ++ ["/"%char])
        with ((lit "https://github.com/" ++ owner ++ "/"%char :: repo) ++ "/"%char :: []).
      * rewrite HasSuffix_after_byte; [done|apply not_in_git_suffix].
      * by rewrite <- !app_assoc.
  - intros Hs. apply (parse_https_path owner repo); try done. by apply Hplain.
  - unfold parseRepoURL. rewrite Hgit.
    rewrite Contains_ssh, Hc', HasPrefix_app, TrimPrefix_app.
    apply segment_spec in Ho as [_ Ho']. apply segment_spec in Hr as [_ Hr'].
    change (lit "/") with ["/"%char]. by rewrite Split_two.
  - intros u H1 H2. unfold parseRepoURL. by rewrite H1, H2.
  - vm_compute. reflexivity.
Qed.

Lemma parseRepoURL_github_witness :
  segment "github" = true /\ segment "gitignore" = true
  /\ Contains (lit "github" ++ "/" ++ "gitignore" ++ "/") "github.com/" = false
  /\ parseRepoURL "https://github.com/github/gitignore" = Ok (lit "github", lit "gitignore")
  /\ parseRepoURL "git@github.com:github/gitignore.git" = Ok (lit "github", lit "gitignore").
Proof.
  split; [reflexivity|]. split; [reflexivity|]. split; [reflexivity|].
  destruct (parseRepoURL_github "github" "gitignore" eq_refl eq_refl eq_refl)
    as (_ & _ & H3 & H4 & _).
  split; [exact (H3 eq_refl)|exact H4].
Defined.

(** C4 as stated fails: with the host of the claim's examples the parser
    refuses the URL, in both forms. *)
Lemma parseRepoURL_other_host_refused :
  parseRepoURL "https://example.com/github/gitignore"
  = Err (ErrUnsupportedURLFormat "https://example.com/github/gitignore")
  /\ parseRepoURL "git@example.com:owner/repo.git"
     = Err (ErrUnsupportedURLFormat "git@example.com:owner/repo")
  /\ parseRepoURL "https://example.com/github/gitignore"
     <> Ok (lit "github", lit "gitignore").
Proof.
  assert (E : parseRepoURL "https://example.com/github/gitignore"
              = Err (ErrUnsupportedURLFormat "https://example.com/github/gitignore"))
    by (vm_compute; reflexivity).
  split; [exact E|]. split; [vm_compute; reflexivity|].
  rewrite E. discriminate.
Qed.

(** Strings outside the accepted forms that the parser takes all the same:
    no scheme and extra segments, an empty repository name, and [.git]
    before a trailing slash kept in the name. *)
Example parseRepoURL_lenient :
  parseRepoURL "github.com/a/b/c/d" = Ok (lit "a", lit "b")
  /\ parseRepoURL "https://github.com/a//b" = Ok (lit "a", lit "")
  /\ parseRepoURL "https://github.com/owner/repo.git/" = Ok (lit "owner", lit "repo.git").
Proof. repeat split; vm_compute; reflexivity. Qed.

End UrlTheorems.

Section DeleteFacts.
Import GoStrings Bufio Manager Spec.

Lemma markers_differ (n : str) : startMarker n <> endMarker n.
Proof. intros H. vm_compute in H. discriminate. Qed.

Lemma startMarker_not_nil (n : str) : startMarker n <> [].
Proof. intros H. vm_compute in H. discriminate. Qed.

Lemma endMarker_not_nil (n : str) : endMarker n <> [].
Proof. intros H. vm_compute in H. discriminate. Qed.

Lemma noLine_Forall (marker : str) (ls : list str) :
  noLine marker ls = true <-> Forall (fun l => TrimSpace l <> marker) ls.
Proof.
  unfold noLine. induction ls as [|l ls IH]; simpl.
  - split; [constructor|done].
  - rewrite andb_true_iff, Forall_cons, IH, negb_true_iff, bool_decide_eq_false.
    done.
Qed.

Lemma noLine_app (marker : str) (a b : list str) :
  noLine marker (a ++ b) = noLine marker a && noLine marker b.
Proof. unfold noLine. apply forallb_app. Qed.

Lemma hasLine_noLine (marker text : str) :
  hasLine marker text = false <-> noLine marker (lines text) = true.
Proof.
  unfold hasLine, noLine. induction (lines text) as [|l ls IH]; simpl; [done|].
  rewrite orb_false_iff, andb_true_iff, IH, negb_true_iff. done.
Qed.

Lemma unlines_app (a b : list str) : unlines (a ++ b) = unlines a ++ unlines b.
Proof. unfold unlines. by rewrite map_app, concat_app. Qed.

Lemma unlines_cons (l : str) (ls : list str) : unlines (l :: ls) = l ++ [LF] ++ unlines ls.
Proof. unfold unlines. simpl. by rewrite <- app_assoc. Qed.

Lemma collapse_app (p : bool) (a b : list str) :
  collapse p (a ++ b) = collapse p a ++ collapse (blankAfter p a) b.
Proof.
  revert p. induction a as [|l a IH]; intros p; simpl; [done|].
  unfold blankAfter in *. simpl.
  destruct (decide (TrimSpace l = [])) as [E|E].
  - rewrite bool_decide_eq_true_2 by done.
    destruct p; rewrite IH; done.
  - rewrite bool_decide_eq_false_2 by done. by rewrite IH.
Qed.

(** Outside the section: lines that are no marker are copied, blank runs
    collapsed. *)
Lemma deleteLoop_outside (sm em : str) (ls : list str) (st : delState) :
  noLine sm ls = true -> noLine em ls = true -> inSection st = false ->
  fold_left (deleteStep sm em) ls st =
  {| result_ := result_ st ++ unlines (collapse (prevLineEmpty st) ls);
     inSection := false;
     foundSection := foundSection st;
     prevLineEmpty := blankAfter (prevLineEmpty st) ls |}.
Proof.
  revert st. induction ls as [|l ls IH]; intros [r i f p] Hs He Hi;
    simpl in Hi; subst i.
  { simpl. by rewrite app_nil_r. }
  simpl in Hs, He.
  apply andb_true_iff in Hs as [Hs1 Hs]. apply andb_true_iff in He as [He1 He].
  apply negb_true_iff, bool_decide_eq_false in Hs1.
  apply negb_true_iff, bool_decide_eq_false in He1.
  cbn [fold_left]. unfold deleteStep at 2.
  destruct (decide (TrimSpace l = sm)); [done|].
  destruct (decide (TrimSpace l = em)); [done|].
  cbn [inSection negb result_ foundSection prevLineEmpty].
  unfold blankAfter. cbn [fold_left collapse].
  destruct (decide (TrimSpace l = [])) as [E|E].
  - rewrite (bool_decide_eq_true_2 _ E). destruct p.
    + rewrite IH by done. done.
    + rewrite IH by done. cbn [result_ foundSection prevLineEmpty].
      by rewrite unlines_cons, <- !app_assoc.
  - rewrite (bool_decide_eq_false_2 _ E).
    rewrite IH by done. cbn [result_ foundSection prevLineEmpty].
    by rewrite unlines_cons, <- !app_assoc.
Qed.

(** Inside the section nothing is copied, whatever the line. *)
Lemma deleteStep_inside (sm em line : str) (st : delState) :
  inSection st = true -> foundSection st = true ->
  result_ (deleteStep sm em st line) = result_ st
  /\ foundSection (deleteStep sm em st line) = true
  /\ prevLineEmpty (deleteStep sm em st line) = prevLineEmpty st.
Proof.
  intros Hi Hf. unfold deleteStep.
  destruct (decide (TrimSpace line = sm)); [done|].
  destruct (decide (TrimSpace line = em)); [done|].
  rewrite Hi. done.
Qed.

Lemma deleteStep_inside_stay (sm em line : str) (st : delState) :
  inSection st = true -> TrimSpace line <> em ->
  inSection (deleteStep sm em st line) = true.
Proof.
  intros Hi He. unfold deleteStep.
  destruct (decide (TrimSpace line = sm)); [done|].
  destruct (decide (TrimSpace line = em)); [done|].
  by rewrite Hi.
Qed.

Lemma deleteLoop_inside (sm em : str) (ls : list str) (st : delState) :
  noLine em ls = true -> inSection st = true -> foundSection st = true ->
  result_ (fold_left (deleteStep sm em) ls st) = result_ st
  /\ inSection (fold_left (deleteStep sm em) ls st) = true
  /\ foundSection (fold_left (deleteStep sm em) ls st) = true
  /\ prevLineEmpty (fold_left (deleteStep sm em) ls st) = prevLineEmpty st.
Proof.
  revert st. induction ls as [|l ls IH]; intros st He Hi Hf; [done|].
  simpl in He. apply andb_true_iff in He as [He1 He].
  apply negb_true_iff, bool_decide_eq_false in He1.
  destruct (deleteStep_inside sm em l st Hi Hf) as (E1 & E2 & E3).
  pose proof (deleteStep_inside_stay sm em l st Hi He1) as E4.
  cbn [fold_left].
  destruct (IH (deleteStep sm em st l) He E4 E2) as (F1 & F2 & F3 & F4).
  by rewrite F1, F2, F3, F4, E1, E3.
Qed.

(** The whole loop over a file with one section. *)
Lemma deleteLoop_section (n s e : str) (pre mid post : list str) :
  TrimSpace s = startMarker n -> TrimSpace e = endMarker n ->
  noLine (startMarker n) pre = true -> noLine (endMarker n) pre = true ->
  noLine (endMarker n) mid = true ->
  noLine (startMarker n) post = true -> noLine (endMarker n) post = true ->
  let st := fold_left (deleteStep (startMarker n) (endMarker n))
              (pre ++ [s] ++ mid ++ [e] ++ post) deleteInit in
  result_ st = unlines (collapse false (pre ++ post)) /\ foundSection st = true.
Proof.
  intros Hs He Hp1 Hp2 Hm Hq1 Hq2. cbv zeta.
  rewrite !fold_left_app.
  rewrite (deleteLoop_outside _ _ pre deleteInit Hp1 Hp2 eq_refl).
  cbn [fold_left result_ foundSection prevLineEmpty deleteInit app].
  set (st1 := deleteStep _ _ _ s).
  assert (H1 : result_ st1 = unlines (collapse false pre)
               /\ inSection st1 = true /\ foundSection st1 = true
               /\ prevLineEmpty st1 = blankAfter false pre).
  { unfold st1, deleteStep. destruct (decide (TrimSpace s = startMarker n)); done. }
  destruct H1 as (A1 & A2 & A3 & A4).
  destruct (deleteLoop_inside (startMarker n) (endMarker n) mid st1 Hm A2 A3)
    as (B1 & B2 & B3 & B4).
  set (st2 := fold_left _ mid st1) in *.
  set (st3 := deleteStep _ _ st2 e).
  assert (H3 : result_ st3 = result_ st2 /\ inSection st3 = false
               /\ foundSection st3 = true /\ prevLineEmpty st3 = prevLineEmpty st2).
  { unfold st3, deleteStep.
    destruct (decide (TrimSpace e = startMarker n)) as [E|_].
    - exfalso. apply (markers_differ n). congruence.
    - destruct (decide (TrimSpace e = endMarker n)); done. }
  destruct H3 as (C1 & C2 & C3 & C4).
  rewrite (deleteLoop_outside _ _ post st3 Hq1 Hq2 C2).
  cbn [result_ foundSection].
  rewrite C1, C3, C4, B1, B4, A1, A4. split; [|done].
  by rewrite collapse_app, unlines_app.
Qed.

Lemma lines_nil : lines [] = [].
Proof. reflexivity. Qed.

(** C2, as the code behaves: for a file of short lines that holds the
    section once (lines before, the start marker, lines inside, the end
    marker, lines after, no stray marker of that section), [Delete] writes
    the lines before and after the section, each as the scanner delivers it,
    with every run of blank lines among these kept lines reduced to its
    first line, whether the run lies inside another section or spans the
    removed one; trailing newlines, tabs and spaces are cut, and what is
    written is empty or ends with exactly one newline. *)
Theorem Delete_removes_section
  (st : store) (n s e : str) (pre mid post : list str) :
  shortLines (content st) = true ->
  lines (content st) = pre ++ [s] ++ mid ++ [e] ++ post ->
  TrimSpace s = startMarker n -> TrimSpace e = endMarker n ->
  noLine (startMarker n) (pre ++ post) = true ->
  noLine (endMarker n) (pre ++ mid ++ post) = true ->
  Delete n st =
  (Ok tt,
   {| file := Some (finalContent (unlines (collapse false (pre ++ post))));
      written := written st ++ [finalContent (unlines (collapse false (pre ++ post)))] |})
  /\ wellTerminated (finalContent (unlines (collapse false (pre ++ post)))) = true.
Proof.
  intros Hshort Hlines Hs He Hn1 Hn2.
  rewrite noLine_app in Hn1. apply andb_true_iff in Hn1 as [Hp1 Hq1].
  rewrite !noLine_app in Hn2. apply andb_true_iff in Hn2 as [Hp2 Hn2].
  apply andb_true_iff in Hn2 as [Hm Hq2].
  split; [|apply finalContent_wellTerminated].
  rewrite Delete_run.
  destruct (decide (content st = [])) as [E|_].
  { rewrite E, lines_nil in Hlines. by destruct pre. }
  cbv zeta. rewrite (Scan_lines _ Hshort). cbn [fst snd]. rewrite Hlines.
  destruct (deleteLoop_section n s e pre mid post Hs He Hp1 Hp2 Hm Hq1 Hq2)
    as [R F].
  rewrite F, R. done.
Qed.

Lemma Delete_removes_section_witness :
  Delete "Go" (storeOf mixedFile)
  = (Ok tt, {| file := Some (unlines [lit "# mine"; lit ""; lit "*.tmp"]);
               written := [unlines [lit "# mine"; lit ""; lit "*.tmp"]] |}).
Proof.
  destruct (Delete_removes_section (storeOf mixedFile) "Go"
              "### START: Go" "### END: Go"
              [lit "# mine"; lit ""] [lit "*.exe"] [lit ""; lit "*.tmp"]
              eq_refl eq_refl eq_refl eq_refl eq_refl eq_refl) as [E _].
  rewrite E. vm_compute. reflexivity.
Defined.

(** C2 as stated fails: two blank lines in a row inside another section
    are outside the removed section and inside a section, so the statement
    keeps both; [Delete] keeps one. *)
Lemma Delete_collapses_inside_other_section :
  specDelete "x" twoSectionsFile
  = unlines [lit "### START: y"; lit "a"; lit ""; lit ""; lit "b"; lit "### END: y"]
  /\ Delete "x" (storeOf twoSectionsFile)
     = (Ok tt,
        {| file := Some (unlines [lit "### START: y"; lit "a"; lit ""; lit "b";
                                  lit "### END: y"]);
           written := [unlines [lit "### START: y"; lit "a"; lit ""; lit "b";
                                lit "### END: y"]] |})
  /\ file (Delete "x" (storeOf twoSectionsFile)).2
     <> Some (specDelete "x" twoSectionsFile).
Proof.
  assert (E1 : specDelete "x" twoSectionsFile
               = unlines [lit "### START: y"; lit "a"; lit ""; lit ""; lit "b";
                          lit "### END: y"]) by (vm_compute; reflexivity).
  assert (E2 : Delete "x" (storeOf twoSectionsFile)
     = (Ok tt,
        {| file := Some (unlines [lit "### START: y"; lit "a"; lit ""; lit "b";
                                  lit "### END: y"]);
           written := [unlines [lit "### START: y"; lit "a"; lit ""; lit "b";
                                lit "### END: y"]] |})) by (vm_compute; reflexivity).
  split; [exact E1|]. split; [exact E2|].
  rewrite E2, E1. vm_compute. discriminate.
Qed.

End DeleteFacts.

Section LineFacts.
Import GoStrings Bufio Manager Spec.

(** *** Trimming keeps a piece of the string *)

Lemma trimLeftSpace_suffix_aux (n : nat) :
  forall s, length s <= n -> exists p, s = p ++ trimLeftSpace s.
Proof.
  induction n as [|n IH]; intros s Hlen.
  - destruct s; [by exists []|simpl in Hlen; lia].
  - destruct s as [|b0 s1]; [by exists []|]. simpl.
    destruct (asciiSpace b0).
    { destruct (IH s1) as [p Hp]; [simpl in Hlen; lia|].
      exists (b0 :: p). simpl. by rewrite <- Hp. }
    destruct s1 as [|b1 s2]; [by exists []|].
    destruct (space2 b0 b1).
    { destruct (IH s2) as [p Hp]; [simpl in Hlen; lia|].
      exists (b0 :: b1 :: p). simpl. by rewrite <- Hp. }
    destruct s2 as [|b2 s3]; [by exists []|].
    destruct (space3 b0 b1 b2); [|by exists []].
    destruct (IH s3) as [p Hp]; [simpl in Hlen; lia|].
    exists (b0 :: b1 :: b2 :: p). simpl. by rewrite <- Hp.
Qed.

Lemma trimLeftSpaceRev_suffix_aux (n : nat) :
  forall s, length s <= n -> exists p, s = p ++ trimLeftSpaceRev s.
Proof.
  induction n as [|n IH]; intros s Hlen.
  - destruct s; [by exists []|simpl in Hlen; lia].
  - destruct s as [|b0 s1]; [by exists []|]. simpl.
    destruct (asciiSpace b0).
    { destruct (IH s1) as [p Hp]; [simpl in Hlen; lia|].
      exists (b0 :: p). simpl. by rewrite <- Hp. }
    destruct s1 as [|b1 s2]; [by exists []|].
    destruct (space2 b1 b0).
    { destruct (IH s2) as [p Hp]; [simpl in Hlen; lia|].
      exists (b0 :: b1 :: p). simpl. by rewrite <- Hp. }
    destruct s2 as [|b2 s3]; [by exists []|].
    destruct (space3 b2 b1 b0); [|by exists []].
    destruct (IH s3) as [p Hp]; [simpl in Hlen; lia|].
    exists (b0 :: b1 :: b2 :: p). simpl. by rewrite <- Hp.
Qed.

Lemma TrimSpace_infix (s : str) : exists p q, s = p ++ TrimSpace s ++ q.
Proof.
  destruct (trimLeftSpace_suffix_aux (length s) s (le_n _)) as [p Hp].
  destruct (trimLeftSpaceRev_suffix_aux _ (rev (trimLeftSpace s)) (le_n _)) as [q Hq].
  exists p, (rev q). unfold TrimSpace, trimRightSpace.
  rewrite <- rev_app_distr, <- Hq, rev_involutive. exact Hp.
Qed.

Lemma dropCR_prefix (l : str) : exists q, l = dropCR l ++ q.
Proof.
  unfold dropCR. destruct (rev l) as [|c r] eqn:E.
  - exists []. by rewrite app_nil_r.
  - destruct (Ascii.eqb c CR).
    + exists [c]. apply (f_equal (@rev ascii)) in E.
      rewrite rev_involutive in E. by rewrite E.
    + exists []. by rewrite app_nil_r.
Qed.

Lemma dropCR_trimmed (s : str) : TrimSpace s = s -> dropCR s = s.
Proof.
  intros H. unfold dropCR. destruct (rev s) as [|c r] eqn:E; [done|].
  destruct (Ascii.eqb c CR) eqn:Hc; [|done].
  apply Ascii.eqb_eq in Hc as ->.
  apply (f_equal (@rev ascii)) in E. rewrite rev_involutive in E. simpl in E.
  rewrite E in H. by apply TrimSpace_last in H.
Qed.

(** *** Lines of a text *)

Lemma rawLines_infix (s l : str) : l ∈ rawLines s -> exists a b, s = a ++ l ++ b.
Proof.
  revert l. induction s as [|c s IH]; intros l; simpl.
  { intros H. by apply elem_of_nil in H. }
  destruct (Ascii.eqb c LF).
  - intros [->|H]%elem_of_cons.
    + exists [], (c :: s). done.
    + destruct (IH l H) as (a & b & ->). by exists (c :: a), b.
  - destruct (rawLines s) as [|l0 ls] eqn:E.
    + intros ->%list_elem_of_singleton.
      destruct s as [|d s'].
      * exists [], []. done.
      * simpl in E. destruct (Ascii.eqb d LF); [done|].
        by destruct (rawLines s').
    + intros [->|H]%elem_of_cons.
      * destruct (IH l0) as (a & b & Hs); [left|].
        (* the first line of [s] starts [s] *)
        assert (Hpre : exists b', s = l0 ++ b').
        { clear -E. revert l0 ls E. induction s as [|d s IHs]; intros l0 ls E; [done|].
          simpl in E. destruct (Ascii.eqb d LF).
          - injection E as <- _. by exists (d :: s).
          - destruct (rawLines s) as [|l1 ls1] eqn:E1.
            + injection E as <- _. destruct s as [|x s']; [by exists []|].
              simpl in E1. destruct (Ascii.eqb x LF); [done|].
              by destruct (rawLines s').
            + injection E as <- _. destruct (IHs l1 ls1 eq_refl) as [b' ->].
              by exists b'. }
        destruct Hpre as [b' ->]. by exists [], b'.
      * destruct (IH l) as (a & b & ->); [by right|]. by exists (c :: a), b.
Qed.

(** A line that is, once trimmed, the marker makes the marker a substring of
    the text. *)
Lemma hasLine_Contains (marker text : str) :
  hasLine marker text = true -> Contains text marker = true.
Proof.
  intros (l & Hl & Ht)%hasLine_true.
  unfold lines in Hl. apply list_elem_of_In, in_map_iff in Hl as (raw & <- & Hraw).
  apply list_elem_of_In, rawLines_infix in Hraw as (a & b & ->).
  destruct (dropCR_prefix raw) as [q Hq].
  destruct (TrimSpace_infix (dropCR raw)) as (p1 & q1 & Hp).
  rewrite Ht in Hp. rewrite Hq, Hp.
  replace (a ++ ((p1 ++ marker ++ q1) ++ q) ++ b)
    with ((a ++ p1) ++ marker ++ (q1 ++ q ++ b)) by (by rewrite <- !app_assoc).
  apply Contains_app.
Qed.

Lemma rawLines_snoc_not_nil (a : str) : rawLines (a ++ [LF]) <> [].
Proof.
  induction a as [|c a IH]; simpl; [done|].
  destruct (Ascii.eqb c LF); [done|]. by destruct (rawLines (a ++ [LF])).
Qed.

(** After a newline the lines start afresh. *)
Lemma rawLines_app (a b : str) :
  rawLines ((a ++ [LF]) ++ b) = rawLines (a ++ [LF]) ++ rawLines b.
Proof.
  induction a as [|c a IH]; simpl; [done|].
  destruct (Ascii.eqb c LF); [by rewrite IH|].
  rewrite IH. pose proof (rawLines_snoc_not_nil a) as Hne.
  by destruct (rawLines (a ++ [LF])).
Qed.

Lemma rawLines_line (l s : str) : LF ∉ l -> rawLines (l ++ LF :: s) = l :: rawLines s.
Proof.
  induction l as [|c l IH]; intros Hl; simpl; [done|].
  apply not_elem_of_cons in Hl as [Hc Hl].
  destruct (Ascii.eqb c LF) eqn:E; [apply Ascii.eqb_eq in E; congruence|].
  by rewrite IH.
Qed.

(** A newline added to an unfinished last line adds no line. *)
Lemma rawLines_terminate (s : str) :
  s <> [] -> HasSuffix s [LF] = false -> rawLines (s ++ [LF]) = rawLines s.
Proof.
  induction s as [|c s IH]; intros Hne Hs; [done|].
  destruct s as [|d s'].
  - simpl. change [c] with ([] ++ [c]) in Hs. rewrite HasSuffix_snoc in Hs.
    by rewrite Hs.
  - assert (Hs' : HasSuffix (d :: s') [LF] = false).
    { rewrite <- Hs. symmetry. apply (HasSuffix_app_r [c] (d :: s')). done. }
    specialize (IH ltac:(done) Hs').
    change ((c :: d :: s') ++ [LF]) with (c :: (d :: s') ++ [LF]).
    cbn [rawLines]. fold (rawLines ((d :: s') ++ [LF])). fold (rawLines (d :: s')).
    by rewrite IH.
Qed.

Lemma lines_app (a b : str) :
  lines ((a ++ [LF]) ++ b) = lines (a ++ [LF]) ++ lines b.
Proof. unfold lines. by rewrite rawLines_app, map_app. Qed.

End LineFacts.

Section RoundTrip.
Import GoStrings Bufio Manager Spec.

Lemma LF_not_in_startMarker (n : str) : LF ∉ n -> LF ∉ startMarker n.
Proof.
  intros Hn H. unfold startMarker, Sprintf_s_s in H.
  apply elem_of_app in H as [H|H].
  - apply list_elem_of_In in H. vm_compute in H.
    repeat (destruct H as [H|H]; [discriminate|]). done.
  - apply elem_of_cons in H as [H|H]; [discriminate|done].
Qed.

Lemma LF_not_in_endMarker (n : str) : LF ∉ n -> LF ∉ endMarker n.
Proof.
  intros Hn H. unfold endMarker, Sprintf_s_s in H.
  apply elem_of_app in H as [H|H].
  - apply list_elem_of_In in H. vm_compute in H.
    repeat (destruct H as [H|H]; [discriminate|]). done.
  - apply elem_of_cons in H as [H|H]; [discriminate|done].
Qed.

Lemma lines_one (l : str) : LF ∉ l -> lines (l ++ [LF]) = [dropCR l].
Proof. intros H. unfold lines. by rewrite rawLines_line. Qed.

Lemma lines_addPrefix (cur rest : str) :
  cur <> [] -> lines (addPrefix cur ++ rest) = lines cur ++ [[]] ++ lines rest.
Proof.
  intros Hne. unfold addPrefix. destruct (decide (cur <> [])); [|done].
  destruct (HasSuffix cur [LF]) eqn:E; cbn [negb].
  - apply HasSuffix_iff in E as [c0 ->].
    rewrite (lines_app (c0 ++ [LF]) rest), (lines_app c0 [LF]).
    by rewrite <- app_assoc.
  - rewrite (lines_app (cur ++ [LF]) rest), (lines_app cur [LF]).
    unfold lines at 1. rewrite rawLines_terminate by done.
    by rewrite <- app_assoc.
Qed.

Lemma lines_section (n t : str) :
  LF ∉ n ->
  lines ((startMarker n ++ [LF]) ++ (t ++ [LF]) ++ (endMarker n ++ [LF]))
  = [dropCR (startMarker n)] ++ lines (t ++ [LF]) ++ [dropCR (endMarker n)].
Proof.
  intros Hn. rewrite lines_app, lines_app.
  rewrite (lines_one (startMarker n)) by (by apply LF_not_in_startMarker).
  rewrite (lines_one (endMarker n)) by (by apply LF_not_in_endMarker).
  done.
Qed.

Lemma noLine_content_lines (marker c : str) :
  marker <> [] -> hasLine marker (TrimSpace c) = false ->
  noLine marker (lines (TrimSpace c ++ [LF])) = true.
Proof.
  intros Hm H. destruct (decide (TrimSpace c = [])) as [E|E].
  - rewrite E. apply noLine_Forall. constructor; [|constructor].
    intros H0. apply Hm. rewrite <- H0. reflexivity.
  - unfold lines. rewrite rawLines_terminate; [by apply hasLine_noLine|done|].
    apply TrimSpace_no_LF_suffix.
Qed.

Lemma finalContent_snoc_LF (r : str) : finalContent (r ++ [LF]) = finalContent r.
Proof. unfold finalContent. by rewrite TrimRight_snoc_in. Qed.

Lemma finalContent_blank_tail (ls : list str) :
  finalContent (unlines (collapse false (ls ++ [[]])))
  = finalContent (unlines (collapse false ls)).
Proof.
  rewrite collapse_app. cbn [collapse].
  destruct (decide (TrimSpace [] = [])) as [_|H]; [|by destruct H].
  destruct (blankAfter false ls).
  - by rewrite app_nil_r.
  - rewrite unlines_app. change (unlines [[]]) with [LF].
    apply finalContent_snoc_LF.
Qed.

(** The loop over a file whose last lines are the section: lines before,
    the start marker, lines that are not the end marker, one last line. *)
Lemma deleteLoop_section_last (n s e : str) (pre mid : list str) :
  TrimSpace s = startMarker n ->
  noLine (startMarker n) pre = true -> noLine (endMarker n) pre = true ->
  noLine (endMarker n) mid = true ->
  let st := fold_left (deleteStep (startMarker n) (endMarker n))
              (pre ++ [s] ++ mid ++ [e]) deleteInit in
  result_ st = unlines (collapse false pre) /\ foundSection st = true.
Proof.
  intros Hs Hp1 Hp2 Hm. cbv zeta.
  rewrite !fold_left_app.
  rewrite (deleteLoop_outside _ _ pre deleteInit Hp1 Hp2 eq_refl).
  cbn [fold_left result_ foundSection prevLineEmpty deleteInit app].
  set (st1 := deleteStep _ _ _ s).
  assert (H1 : result_ st1 = unlines (collapse false pre)
               /\ inSection st1 = true /\ foundSection st1 = true).
  { unfold st1, deleteStep. destruct (decide (TrimSpace s = startMarker n)); done. }
  destruct H1 as (A1 & A2 & A3).
  destruct (deleteLoop_inside (startMarker n) (endMarker n) mid st1 Hm A2 A3)
    as (B1 & B2 & B3 & _).
  destruct (deleteStep_inside (startMarker n) (endMarker n) e _ B2 B3) as (C1 & C2 & _).
  by rewrite C1, C2, B1, A1.
Qed.

(** C1, as the code behaves: when [HasSection] does not find the name, no
    line of the file and no line of the trimmed content is the end marker
    of the section, the start marker is a line that trimming leaves as it
    is (a name with no newline, not empty, no white space at its end), and
    every line of the file [Add] writes is short, then [Add] followed by
    [Delete] succeeds and leaves the old content in the editor's normal
    form: lines as the scanner delivers them, blank-line runs collapsed,
    trailing newlines, tabs and spaces cut. *)
Theorem Add_then_Delete_restores (st : store) (n c : str) :
  (HasSection n st).1 = Ok false ->
  hasLine (endMarker n) (content st) = false ->
  hasLine (endMarker n) (TrimSpace c) = false ->
  TrimSpace (startMarker n) = startMarker n ->
  LF ∉ n ->
  shortLines (content (Add n c st).2) = true ->
  (Add n c st).1 = Ok tt
  /\ (Delete n (Add n c st).2).1 = Ok tt
  /\ file (Delete n (Add n c st).2).2 = Some (normalize (content st)).
Proof.
  rewrite HasSection_run. cbn [fst]. intros [= Hc] He Hce Hs Hn.
  rewrite Add_run, Hc. cbn [fst snd]. rewrite content_Some. intros Hshort.
  split; [done|].
  rewrite Delete_run, content_Some.
  assert (Hpre1 : noLine (startMarker n) (lines (content st)) = true).
  { apply hasLine_noLine. apply not_true_is_false. intros H.
    apply hasLine_Contains in H. congruence. }
  assert (Hpre2 : noLine (endMarker n) (lines (content st)) = true)
    by (by apply hasLine_noLine).
  assert (Hmid : noLine (endMarker n) (lines (TrimSpace c ++ [LF])) = true)
    by (apply noLine_content_lines; [apply endMarker_not_nil|done]).
  assert (Hblank : forall m, m <> [] -> noLine m [[]] = true).
  { intros m Hm. apply noLine_Forall. constructor; [|constructor].
    intros H0. apply Hm. rewrite <- H0. reflexivity. }
  assert (HdS : TrimSpace (dropCR (startMarker n)) = startMarker n)
    by (by rewrite dropCR_trimmed).
  destruct (decide (addBuild (content st) n c = [])) as [E|_].
  { rewrite addBuild_eq in E. apply app_eq_nil in E as [_ E].
    apply app_eq_nil in E as [E _]. by apply app_eq_nil in E as [_ E]. }
  cbv zeta. rewrite (Scan_lines _ Hshort). cbn [fst snd].
  rewrite addBuild_eq.
  destruct (decide (content st = [])) as [E0|Hne].
  - (* an empty or absent file *)
    rewrite E0. change (addPrefix []) with (@nil ascii). cbn [app].
    rewrite lines_section by done.
    destruct (deleteLoop_section_last n (dropCR (startMarker n)) (dropCR (endMarker n))
                [] (lines (TrimSpace c ++ [LF])) HdS eq_refl eq_refl Hmid) as [R F].
    cbn [app] in R, F. cbn [app]. rewrite F, R. done.
  - rewrite lines_addPrefix by done. rewrite lines_section by done.
    assert (Hp1 : noLine (startMarker n) (lines (content st) ++ [[]]) = true).
    { rewrite noLine_app, Hpre1. apply Hblank, startMarker_not_nil. }
    assert (Hp2 : noLine (endMarker n) (lines (content st) ++ [[]]) = true).
    { rewrite noLine_app, Hpre2. apply Hblank, endMarker_not_nil. }
    destruct (deleteLoop_section_last n (dropCR (startMarker n)) (dropCR (endMarker n))
                (lines (content st) ++ [[]]) (lines (TrimSpace c ++ [LF]))
                HdS Hp1 Hp2 Hmid) as [R F].
    rewrite <- !app_assoc in R, F. rewrite <- !app_assoc.
    cbn [app] in *. rewrite F, R. cbn [negb fst snd file].
    split; [done|]. unfold normalize. f_equal.
    apply finalContent_blank_tail.
Qed.

Lemma Add_then_Delete_restores_witness :
  file (Delete "Go" (Add "Go" "*.exe" (storeOf (unlines [lit "# mine"; lit ""; lit ""; lit "*.tmp "]))).2).2
  = Some (unlines [lit "# mine"; lit ""; lit "*.tmp"]).
Proof.
  destruct (Add_then_Delete_restores
              (storeOf (unlines [lit "# mine"; lit ""; lit ""; lit "*.tmp "]))
              "Go" "*.exe" eq_refl eq_refl eq_refl eq_refl) as (_ & _ & E).
  - intros H. apply list_elem_of_In in H. vm_compute in H.
    repeat (destruct H as [H|H]; [discriminate|]). done.
  - vm_compute. reflexivity.
  - rewrite E. vm_compute. reflexivity.
Defined.

(** C1 as stated fails.  A content that holds the end marker of its own
    section leaves its tail in the file after [Delete]; and a section with
    the empty name cannot be deleted at all. *)
Lemma Add_then_Delete_leaves_tail :
  (HasSection "x" emptyStore).1 = Ok false
  /\ (Add "x" ("### END: x" ++ [LF] ++ "b") emptyStore).1 = Ok tt
  /\ Delete "x" (Add "x" ("### END: x" ++ [LF] ++ "b") emptyStore).2
     = (Ok tt, {| file := Some ("b" ++ [LF]);
                  written := [unlines [lit "### START: x"; lit "### END: x"; lit "b";
                                       lit "### END: x"];
                              "b" ++ [LF]] |})
  /\ normalize (content emptyStore) = []
  /\ (Add "" "c" emptyStore).1 = Ok tt
  /\ Delete "" (Add "" "c" emptyStore).2
     = (Err (ErrSectionNotFound ""), (Add "" "c" emptyStore).2).
Proof. repeat split; vm_compute; reflexivity. Qed.

End RoundTrip.

Section LongLine.
Import GoStrings Bufio Manager Spec.

Lemma rawLines_repeat (c : ascii) (k : nat) :
  c <> LF -> k <> 0 -> rawLines (repeat c k) = [repeat c k].
Proof.
  intros Hc. induction k as [|k IH]; intros Hk; [done|].
  simpl. destruct (Ascii.eqb c LF) eqn:E; [apply Ascii.eqb_eq in E; done|].
  destruct k as [|k']; [done|]. by rewrite IH.
Qed.

(** A file that is one line of 64 KiB or more stops the scanner, whatever
    section is asked for. *)
Lemma Delete_one_long_line (n : str) (k : nat) :
  (MaxScanTokenSize <= N.of_nat k)%N ->
  (Delete n (storeOf (repeat "a"%char k))).1 = Err ErrReading.
Proof.
  intros Hk. assert (Hk0 : k <> 0) by (unfold MaxScanTokenSize in Hk; lia).
  rewrite Delete_run. unfold storeOf. rewrite content_Some.
  destruct (decide (repeat "a"%char k = [])) as [E|_].
  { destruct k; [done|discriminate]. }
  cbv zeta. unfold Scan. rewrite rawLines_repeat by done.
  cbn [scanTokens]. rewrite repeat_length.
  apply N.leb_le in Hk. rewrite Hk. done.
Qed.

Lemma no_marker_in_repeat (marker : str) (k : nat) :
  "a"%char ∉ marker -> marker <> [] ->
  hasLine marker (repeat "a"%char k) = false.
Proof.
  intros Ha Hne. apply not_true_is_false. intros H.
  apply hasLine_Contains, Contains_true in H as (a & b & E).
  destruct marker as [|m marker']; [done|].
  assert (Hin : In m (repeat "a"%char k)).
  { rewrite E. apply in_or_app. right. left. done. }
  apply repeat_spec in Hin. subst m. apply Ha. left.
Qed.

(** C5 as stated fails on a file with a line the scanner cannot hold: the
    section is not in the file, and the error is not "section not found". *)
Lemma Delete_missing_section_long_line :
  hasLine (startMarker "Go") longLineFile = false
  /\ (Delete "Go" (storeOf longLineFile)).1 = Err ErrReading
  /\ (Delete "Go" (storeOf longLineFile)).1 <> Err (ErrSectionNotFound "Go").
Proof.
  assert (E : (Delete "Go" (storeOf longLineFile)).1 = Err ErrReading).
  { apply Delete_one_long_line. rewrite N2Nat.id. reflexivity. }
  split.
  - apply no_marker_in_repeat; [|apply startMarker_not_nil].
    intros H. apply list_elem_of_In in H. vm_compute in H.
    repeat (destruct H as [H|H]; [discriminate|]). done.
  - split; [exact E|]. rewrite E. discriminate.
Qed.

End LongLine.
